(** * bitcoin_tour: a shallow embedding of [src/bitcoin_tour.py]

    The Python module is embedded function by function.  Python [int] is [Z],
    [bytes] is [list byte], [None]-able fields are [option], and a raised
    exception is the [Raise] branch of the result type [res].  Loops are
    written with an explicit iteration budget that is computed from the
    arguments and proved sufficient, so every model function is total and
    can be evaluated. *)

From Stdlib Require Import String Ascii DecimalString QArith.
From Stdlib.Strings Require Import Byte.
From Stdlib Require Import ZArith Lia Bool List.
Import ListNotations.

Local Open Scope Z_scope.

(* ------------------------------------------------------------------ *)
(** ** Exceptions and the result monad *)

Inductive exn : Type :=
| OverflowError
| ValueError (msg : string)
| AssertionError
| AttributeError
| TypeError
| IndexError
| ZeroDivisionError
| FuelExhausted.

Inductive res (A : Type) : Type :=
| Ok (a : A)
| Raise (e : exn).

Arguments Ok {A} a.
Arguments Raise {A} e.

Definition bind {A B : Type} (m : res A) (k : A -> res B) : res B :=
  match m with
  | Ok a => k a
  | Raise e => Raise e
  end.

Notation "x <- m ;; k" := (bind m (fun x => k))
  (at level 61, m at next level, right associativity).

Fixpoint mapM {A B : Type} (f : A -> res B) (l : list A) : res (list B) :=
  match l with
  | [] => Ok []
  | a :: l' => b <- f a ;; bs <- mapM f l' ;; Ok (b :: bs)
  end.

(* ------------------------------------------------------------------ *)
(** ** Bytes *)

Definition bytes := list byte.

(** The byte whose value is [z mod 256]. *)
Definition byte_of_Z (z : Z) : byte :=
  match Byte.of_N (Z.to_N (z mod 256)) with
  | Some b => b
  | None => x00
  end.

Definition Z_of_byte (b : byte) : Z := Z.of_N (Byte.to_N b).

(** [b''.join(out)] *)
Definition join (out : list bytes) : bytes := List.concat out.

(** [b.lstrip(b'\x00')] *)
Fixpoint lstrip0 (b : bytes) : bytes :=
  match b with
  | [] => []
  | c :: b' => if Byte.eqb c x00 then lstrip0 b' else b
  end.

(** [int.from_bytes(b, 'little')] and [int.from_bytes(b, 'big')] *)
Fixpoint int_from_bytes_little (b : bytes) : Z :=
  match b with
  | [] => 0
  | c :: b' => Z_of_byte c + 256 * int_from_bytes_little b'
  end.

Definition int_from_bytes_big (b : bytes) : Z := int_from_bytes_little (rev b).

(** The [nbytes] low base-256 digits of [i], least significant first. *)
Fixpoint le_digits (nbytes : nat) (i : Z) : bytes :=
  match nbytes with
  | O => []
  | S k => byte_of_Z i :: le_digits k (i / 256)
  end.

Inductive byteorder : Type := little | big.

(* ------------------------------------------------------------------ *)
(** ** Helper functions *)

Module Helpers.

(** The [while r != 0] loop of [inv].  Each iteration is one case of the
    recursion; [fuel] bounds the number of iterations. *)
Fixpoint inv_loop (fuel : nat) (old_r r old_s s old_t t : Z) : option (Z * Z * Z) :=
  match fuel with
  | O => None
  | S fuel' =>
      if r =? 0 then Some (old_r, old_s, old_t)
      else
        let quotient := old_r / r in
        inv_loop fuel' r (old_r - quotient * r)
                       s (old_s - quotient * s)
                       t (old_t - quotient * t)
  end.

(** Twice the bit length of the modulus, plus slack for the first and the
    last test of the loop condition. *)
Definition inv_fuel (p : Z) : nat := Z.to_nat (2 * Z.log2 (Z.abs p) + 4).

(** [inv(n, p)].  Python's [//] and [%] are floor division and its
    remainder, as [Z.div] and [Z.modulo]; [x % p] raises on [p == 0]. *)
Definition inv (n p : Z) : res Z :=
  match inv_loop (inv_fuel p) n p 1 0 0 1 with
  | None => Raise FuelExhausted
  | Some (gcd, x, y) =>
      if p =? 0 then Raise ZeroDivisionError else Ok (x mod p)
  end.

(** [i.to_bytes(nbytes, encoding)]: unsigned, raises [OverflowError] on a
    negative [i] and on one that needs more than [nbytes] bytes. *)
Definition encode_int (i : Z) (nbytes : nat) (encoding : byteorder) : res bytes :=
  if (i <? 0) || (256 ^ Z.of_nat nbytes <=? i) then Raise OverflowError
  else
    match encoding with
    | little => Ok (le_digits nbytes i)
    | big => Ok (rev (le_digits nbytes i))
    end.

(** ["%d" % (i,)] *)
Definition format_d (i : Z) : string := NilZero.string_of_int (Z.to_int i).

(** [bytes([i])] raises [ValueError] unless [0 <= i < 256]. *)
Definition bytes_of_ints (l : list Z) : res bytes :=
  mapM (fun i =>
          if (0 <=? i) && (i <? 256) then Ok (byte_of_Z i)
          else Raise (ValueError "bytes must be in range(0, 256)")) l.

Definition encode_varint (i : Z) : res bytes :=
  if i <? 0xfd then bytes_of_ints [i]
  else if i <? 0x10000 then
    b <- encode_int i 2 little ;; Ok (xfd :: b)
  else if i <? 0x100000000 then
    b <- encode_int i 4 little ;; Ok (xfe :: b)
  else if i <? 0x10000000000000000 then
    b <- encode_int i 8 little ;; Ok (xff :: b)
  else Raise (ValueError (String.append "integer too large: " (format_d i))).

End Helpers.

Import Helpers.

(** [a % p]: the remainder of floor division, an error on [p == 0]. *)
Definition py_mod (a p : Z) : res Z :=
  if p =? 0 then Raise ZeroDivisionError else Ok (a mod p).

(** Arithmetic on an attribute that holds [None] raises [TypeError]. *)
Definition as_int (v : option Z) : res Z :=
  match v with
  | Some z => Ok z
  | None => Raise TypeError
  end.

(** [==] on values that are [None] or an [int]. *)
Definition opt_eqb (u v : option Z) : bool :=
  match u, v with
  | Some a, Some b => a =? b
  | None, None => true
  | _, _ => false
  end.

(* ------------------------------------------------------------------ *)
(** ** Elliptic curve cryptography *)

Record Curve : Type := mkCurve { p : Z; a : Z; b : Z }.

(** [Point] defines no [__eq__], so [self == INF] is object identity: it
    holds of the one object bound to the module-level name [INF] and of no
    other, whatever the fields of the other object are.  The model keeps
    that one object apart: [INF] is the singleton, [Pt curve x y] is any
    other object made by [Point(curve, x, y)]. *)
Inductive Point : Type :=
| INF
| Pt (curve : option Curve) (x y : option Z).

Definition Point_curve (P : Point) : option Curve :=
  match P with INF => None | Pt c _ _ => c end.
Definition Point_x (P : Point) : option Z :=
  match P with INF => None | Pt _ x _ => x end.
Definition Point_y (P : Point) : option Z :=
  match P with INF => None | Pt _ _ y => y end.

(** [P == INF] *)
Definition is_INF (P : Point) : bool :=
  match P with INF => true | Pt _ _ _ => false end.

(** [self.curve.a], [self.curve.p]: [AttributeError] on a [None] curve. *)
Definition curve_of (P : Point) : res Curve :=
  match Point_curve P with
  | Some c => Ok c
  | None => Raise AttributeError
  end.

Module PointOps.

(** [Point.__add__] *)
Definition add (self other : Point) : res Point :=
  if is_INF self then Ok other
  else if is_INF other then Ok self
  else if opt_eqb (Point_x self) (Point_x other)
          && negb (opt_eqb (Point_y self) (Point_y other)) then Ok INF
  else
    m <- (if opt_eqb (Point_x self) (Point_x other) then
            sx <- as_int (Point_x self) ;;
            c <- curve_of self ;;
            sy <- as_int (Point_y self) ;;
            i <- inv (2 * sy) (p c) ;;
            Ok ((3 * sx ^ 2 + a c) * i)
          else
            sy <- as_int (Point_y self) ;;
            oy <- as_int (Point_y other) ;;
            sx <- as_int (Point_x self) ;;
            ox <- as_int (Point_x other) ;;
            c <- curve_of self ;;
            i <- inv (sx - ox) (p c) ;;
            Ok ((sy - oy) * i)) ;;
    sx <- as_int (Point_x self) ;;
    ox <- as_int (Point_x other) ;;
    c <- curve_of self ;;
    rx <- py_mod (m ^ 2 - sx - ox) (p c) ;;
    sy <- as_int (Point_y self) ;;
    ry <- py_mod (- (m * (rx - sx) + sy)) (p c) ;;
    Ok (Pt (Point_curve self) (Some rx) (Some ry)).

(** The [while k] loop of [__rmul__]; [k & 1] is the low bit and
    [k >>= 1] drops it. *)
Fixpoint rmul_loop (fuel : nat) (k : Z) (result append : Point) : res Point :=
  match fuel with
  | O => if k =? 0 then Ok result else Raise FuelExhausted
  | S fuel' =>
      if k =? 0 then Ok result
      else
        result' <- (if Z.land k 1 =? 0 then Ok result else add result append) ;;
        append' <- add append append ;;
        rmul_loop fuel' (Z.shiftr k 1) result' append'
  end.

(** [Point.__rmul__]: [k * self]. *)
Definition rmul (k : Z) (self : Point) : res Point :=
  if k <? 0 then Raise AssertionError
  else rmul_loop (Z.to_nat (Z.log2 k + 1)) k INF self.

End PointOps.

Record Generator : Type := mkGenerator { G : Point; n : Z }.

(** The secp256k1 parameters used with this module. *)
Definition secp256k1 : Curve :=
  mkCurve 0xFFFFFFFFFFFFFFFFFFFFFFFFFFFFFFFFFFFFFFFFFFFFFFFFFFFFFFFEFFFFFC2F 0 7.

Definition secp256k1_G : Point :=
  Pt (Some secp256k1)
     (Some 0x79BE667EF9DCBBAC55A06295CE870B07029BFCDB2DCE28D959F2815B16F81798)
     (Some 0x483ADA7726A3C4655DA4FBFC0E1108A8FD17B448A68554199C47D08FFB10D4B8).

Definition secp256k1_gen : Generator :=
  mkGenerator secp256k1_G
    0xFFFFFFFFFFFFFFFFFFFFFFFFFFFFFFFEBAAEDCE6AF48A03BBFD25E8CD0364141.

(* ------------------------------------------------------------------ *)
(** ** hashlib.sha256

    [hashlib] belongs to the Python standard library, not to this module.
    SHA-256 is written out (FIPS 180-4) so that [sign] can be evaluated on
    a concrete message; it is checked on the standard test vectors among
    the properties. *)

Module SHA256.

Definition w32 (x : Z) : Z := x mod 2 ^ 32.
Definition rotr (k x : Z) : Z :=
  Z.lor (Z.shiftr x k) (w32 (Z.shiftl x (32 - k))).

(** The round constants and the initial hash value, in decimal. *)
Definition K : list Z :=
  [ 1116352408; 1899447441; 3049323471; 3921009573;
    961987163; 1508970993; 2453635748; 2870763221;
    3624381080; 310598401; 607225278; 1426881987;
    1925078388; 2162078206; 2614888103; 3248222580;
    3835390401; 4022224774; 264347078; 604807628;
    770255983; 1249150122; 1555081692; 1996064986;
    2554220882; 2821834349; 2952996808; 3210313671;
    3336571891; 3584528711; 113926993; 338241895;
    666307205; 773529912; 1294757372; 1396182291;
    1695183700; 1986661051; 2177026350; 2456956037;
    2730485921; 2820302411; 3259730800; 3345764771;
    3516065817; 3600352804; 4094571909; 275423344;
    430227734; 506948616; 659060556; 883997877;
    958139571; 1322822218; 1537002063; 1747873779;
    1955562222; 2024104815; 2227730452; 2361852424;
    2428436474; 2756734187; 3204031479; 3329325298 ].

Definition H0 : list Z :=
  [ 1779033703; 3144134277; 1013904242; 2773480762;
    1359893119; 2600822924; 528734635; 1541459225 ].

Definition pad (msg : bytes) : bytes :=
  let len := Z.of_nat (length msg) in
  let zeros := Z.to_nat ((55 - len) mod 64) in
  msg ++ [x80] ++ repeat x00 zeros ++ rev (le_digits 8 (8 * len)).

Fixpoint words (fuel : nat) (b : bytes) : list Z :=
  match fuel, b with
  | S fuel', b0 :: b1 :: b2 :: b3 :: b' =>
      int_from_bytes_big [b0; b1; b2; b3] :: words fuel' b'
  | _, _ => []
  end.

Definition ssig0 (x : Z) := Z.lxor (Z.lxor (rotr 7 x) (rotr 18 x)) (Z.shiftr x 3).
Definition ssig1 (x : Z) := Z.lxor (Z.lxor (rotr 17 x) (rotr 19 x)) (Z.shiftr x 10).
Definition bsig0 (x : Z) := Z.lxor (Z.lxor (rotr 2 x) (rotr 13 x)) (rotr 22 x).
Definition bsig1 (x : Z) := Z.lxor (Z.lxor (rotr 6 x) (rotr 11 x)) (rotr 25 x).
Definition ch (x y z : Z) := Z.lxor (Z.land x y) (Z.land (w32 (Z.lnot x)) z).
Definition maj (x y z : Z) :=
  Z.lxor (Z.lxor (Z.land x y) (Z.land x z)) (Z.land y z).

(** The message schedule, most recent word first. *)
Fixpoint schedule (k : nat) (w : list Z) : list Z :=
  match k with
  | O => w
  | S k' =>
      let wt := w32 (ssig1 (nth 1 w 0) + nth 6 w 0 + ssig0 (nth 14 w 0) + nth 15 w 0) in
      schedule k' (wt :: w)
  end.

Definition round (st : list Z) (kw : Z * Z) : list Z :=
  match st with
  | [a; b; c; d; e; f; g; h] =>
      let t1 := h + bsig1 e + ch e f g + fst kw + snd kw in
      let t2 := bsig0 a + maj a b c in
      [w32 (t1 + t2); a; b; c; w32 (d + t1); e; f; g]
  | _ => st
  end.

Definition compress (st : list Z) (block : list Z) : list Z :=
  let w := rev (schedule 48 (rev block)) in
  let st' := fold_left round (combine K w) st in
  map (fun xy => w32 (fst xy + snd xy)) (combine st st').

Fixpoint blocks (fuel : nat) (st : list Z) (ws : list Z) : list Z :=
  match fuel with
  | O => st
  | S fuel' =>
      match ws with
      | [] => st
      | _ => blocks fuel' (compress st (firstn 16 ws)) (skipn 16 ws)
      end
  end.

(** [hashlib.sha256(msg).digest()] *)
Definition digest (msg : bytes) : bytes :=
  let padded := pad msg in
  let ws := words (length padded) padded in
  let st := blocks (length ws) H0 ws in
  flat_map (fun x => rev (le_digits 4 x)) st.

End SHA256.

(* ------------------------------------------------------------------ *)
(** ** Transactions *)

(** The Python values that can sit in a command list or be passed as
    [script_override].  [bool] is a subclass of [int], so
    [isinstance(True, int)] holds. *)
Inductive pyval : Type :=
| PNone
| PBool (b : bool)
| PInt (i : Z)
| PBytes (b : bytes)
| PStr (s : string).

(** [isinstance(v, int)] with the integer value of [v]. *)
Definition isinstance_int (v : pyval) : option Z :=
  match v with
  | PInt i => Some i
  | PBool true => Some 1
  | PBool false => Some 0
  | _ => None
  end.

(** [isinstance(v, bytes)] with the content of [v]. *)
Definition isinstance_bytes (v : pyval) : option bytes :=
  match v with
  | PBytes b => Some b
  | _ => None
  end.

Record Script : Type := mkScript { cmds : list pyval }.

Module ScriptOps.

(** One turn of the [for cmd in self.cmds] loop: the chunks appended to
    [out]. *)
Definition encode_cmd (cmd : pyval) : res (list bytes) :=
  match isinstance_int cmd with
  | Some i => e <- encode_int i 1 little ;; Ok [e]
  | None =>
      match isinstance_bytes cmd with
      | Some content =>
          let length := Z.of_nat (List.length content) in
          if length <? 75 then
            l <- encode_int length 1 little ;; Ok [l; content]
          else Raise AssertionError
      | None => Ok []
      end
  end.

(** [Script.encode] *)
Definition encode (self : Script) : res bytes :=
  out <- mapM encode_cmd (cmds self) ;;
  let ret := join (List.concat out) in
  l <- encode_varint (Z.of_nat (List.length ret)) ;;
  Ok (l ++ ret).

End ScriptOps.

Record Transaction : Type := mkTransaction { version : Z; locktime : Z }.

(** The dict returned by [create_transaction_input]. *)
Record TransactionInput : Type := mkTransactionInput {
  prev_transaction_id : bytes;
  prev_transaction_idx : Z;
  script_sig : option Script;
  sequence : Z;
  prev_transaction_script_pubkey : Script
}.

(** The dict returned by [create_transaction_output]. *)
Record TransactionOutput : Type := mkTransactionOutput {
  amount : Z;
  script_pubkey : Script
}.

Module TransactionOps.

(** [create_transaction_input]; the defaults of the last two parameters
    are [None] and [default_sequence]. *)
Definition default_sequence : Z := 0xffffffff.

Definition create_transaction_input (self : Transaction)
    (prev_transaction_id : bytes) (prev_transaction_idx : Z)
    (publickey_hash : pyval) (script_sig : option Script) (sequence : Z)
  : TransactionInput :=
  {| prev_transaction_id := prev_transaction_id;
     prev_transaction_idx := prev_transaction_idx;
     script_sig := script_sig;
     sequence := sequence;
     prev_transaction_script_pubkey :=
       mkScript [PInt 118; PInt 169; publickey_hash; PInt 126; PInt 172] |}.

(** [encode_transaction_input]; [script_override] is tested with [is]
    against [None], [True] and [False]. *)
Definition encode_transaction_input (self : Transaction)
    (transaction_input : TransactionInput) (script_override : pyval) : res bytes :=
  let o1 := rev (prev_transaction_id transaction_input) in
  o2 <- encode_int (prev_transaction_idx transaction_input) 4 little ;;
  o3 <- match script_override with
        | PNone =>
            match script_sig transaction_input with
            | Some sc => ScriptOps.encode sc
            | None => Raise AttributeError
            end
        | PBool true =>
            ScriptOps.encode (prev_transaction_script_pubkey transaction_input)
        | PBool false => ScriptOps.encode (mkScript [])
        | _ => Raise (ValueError "script_override must be one of None, True or False")
        end ;;
  o4 <- encode_int (sequence transaction_input) 4 little ;;
  Ok (join [o1; o2; o3; o4]).

Definition create_transaction_output (self : Transaction)
    (amount : Z) (script_pubkey : Script) : TransactionOutput :=
  {| amount := amount; script_pubkey := script_pubkey |}.

Definition encode_transaction_output (self : Transaction)
    (transaction_output : TransactionOutput) : res bytes :=
  o1 <- encode_int (amount transaction_output) 8 little ;;
  o2 <- ScriptOps.encode (script_pubkey transaction_output) ;;
  Ok (join [o1; o2]).

(** [enumerate(l)], counting from [i]. *)
Fixpoint enumerate_from {A : Type} (i : Z) (l : list A) : list (Z * A) :=
  match l with
  | [] => []
  | x :: l' => (i, x) :: enumerate_from (i + 1) l'
  end.

(** The statements of [Transaction.encode] up to and including the
    locktime: the chunks collected in [out] so far. *)
Definition encode_chunks (self : Transaction)
    (transaction_inputs : list TransactionInput)
    (transaction_outputs : list TransactionOutput) (sig_index : Z)
  : res (list bytes) :=
  v <- encode_int (version self) 4 little ;;
  n_in <- encode_varint (Z.of_nat (List.length transaction_inputs)) ;;
  ins <- (if sig_index =? -1 then
            mapM (fun transaction_input =>
                    encode_transaction_input self transaction_input PNone)
                 transaction_inputs
          else
            mapM (fun it =>
                    encode_transaction_input self (snd it)
                      (PBool (sig_index =? fst it)))
                 (enumerate_from 0 transaction_inputs)) ;;
  n_out <- encode_varint (Z.of_nat (List.length transaction_outputs)) ;;
  outs <- mapM (encode_transaction_output self) transaction_outputs ;;
  lt <- encode_int (locktime self) 4 little ;;
  Ok ([v] ++ [n_in] ++ ins ++ [n_out] ++ outs ++ [lt]).

(** [Transaction.encode] *)
Definition encode (self : Transaction)
    (transaction_inputs : list TransactionInput)
    (transaction_outputs : list TransactionOutput) (sig_index : Z) : res bytes :=
  out <- encode_chunks self transaction_inputs transaction_outputs sig_index ;;
  last <- (if negb (sig_index =? -1) then encode_int 1 4 little else Ok []) ;;
  Ok (join (out ++ [last])).

End TransactionOps.

(* ------------------------------------------------------------------ *)
(** ** Signatures *)

Record Signature : Type := mkSignature { r : Z; s : Z }.

Module SignatureOps.

(** The inner function [dern] of [signature_encode]. *)
Definition dern (n : Z) : res bytes :=
  nb <- encode_int n 32 big ;;
  let nb := lstrip0 nb in
  match nb with
  | [] => Raise IndexError
  | first :: _ =>
      Ok ((if 0x80 <=? Z_of_byte first then [x00] else []) ++ nb)
  end.

(** [Signature.signature_encode] *)
Definition signature_encode (self : Signature) : res bytes :=
  rb <- dern (r self) ;;
  sb <- dern (s self) ;;
  h1 <- bytes_of_ints [0x02; Z.of_nat (List.length rb)] ;;
  h2 <- bytes_of_ints [0x02; Z.of_nat (List.length sb)] ;;
  let content := join [h1; rb; h2; sb] in
  h0 <- bytes_of_ints [0x30; Z.of_nat (List.length content)] ;;
  let frame := join [h0; content] in
  Ok frame.

End SignatureOps.

(** *** Floats

    [n / 2] on two [int]s is true division: the result is the binary64
    float nearest to the exact quotient, ties to even, and
    [OverflowError] when that is beyond the range of floats.  A binary64
    value is a rational; [s > f] between an [int] and a float compares the
    exact values. *)

(** [a] rounded to 53 significant bits, ties to even. *)
Definition round_binary64 (a : Z) : Z :=
  let mag := Z.abs a in
  let sh := Z.log2 mag + 1 - 53 in
  if sh <=? 0 then a
  else
    let q := Z.shiftr mag sh in
    let rem := mag - Z.shiftl q sh in
    let half := Z.shiftl 1 (sh - 1) in
    let q' := if (half <? rem) || ((rem =? half) && Z.odd q) then q + 1 else q in
    Z.sgn a * Z.shiftl q' sh.

(** [n / 2]; halving a float is exact. *)
Definition truediv_2 (n : Z) : res Q :=
  let m := round_binary64 n in
  if 2 ^ 1025 <=? Z.abs m then Raise OverflowError
  else Ok (Qmake m 2).

(** [s > f] *)
Definition int_gt_float (s : Z) (f : Q) : bool :=
  negb (Qle_bool (inject_Z s) f).

(** [sign].  [sk] stands for the value that [random.randrange(1, n)]
    returns, so [1 <= sk < n]; the call raises [ValueError] when that
    range is empty. *)
Definition sign (secret_key : Z) (message : bytes) (generator : Generator)
    (sk : Z) : res Signature :=
  let n := n generator in
  let message := SHA256.digest message in
  let z := int_from_bytes_big (SHA256.digest message) in
  if n <=? 1 then Raise (ValueError "empty range for randrange()")
  else
    P <- PointOps.rmul sk (G generator) ;;
    let r := Point_x P in
    i <- inv sk n ;;
    rz <- as_int r ;;
    s <- py_mod (i * (z + secret_key * rz)) n ;;
    half <- truediv_2 n ;;
    let s := if int_gt_float s half then n - s else s in
    Ok (mkSignature rz s).

(* ------------------------------------------------------------------ *)
(** ** hashlib.new('ripemd160'), bytes.hex and bytes.fromhex

    Like SHA-256 these belong to Python, not to this module; they are
    written out so that the wallet functions can be evaluated.  RIPEMD-160
    follows its specification (two lines of 80 steps on little-endian
    words) and is checked on test vectors among the properties. *)

Module RIPEMD160.

Definition w32 (x : Z) : Z := x mod 2 ^ 32.
Definition rol (k x : Z) : Z :=
  w32 (Z.lor (Z.shiftl x k) (Z.shiftr x (32 - k))).
Definition not32 (x : Z) : Z := Z.lxor x (2 ^ 32 - 1).

(** The message word and the rotation of each step, left and right line. *)
Definition word_left : list nat :=
  [ 0; 1; 2; 3; 4; 5; 6; 7; 8; 9; 10; 11; 12; 13; 14; 15;
    7; 4; 13; 1; 10; 6; 15; 3; 12; 0; 9; 5; 2; 14; 11; 8;
    3; 10; 14; 4; 9; 15; 8; 1; 2; 7; 0; 6; 13; 11; 5; 12;
    1; 9; 11; 10; 0; 8; 12; 4; 13; 3; 7; 15; 14; 5; 6; 2;
    4; 0; 5; 9; 7; 12; 2; 10; 14; 1; 3; 8; 11; 6; 15; 13 ]%nat.

Definition word_right : list nat :=
  [ 5; 14; 7; 0; 9; 2; 11; 4; 13; 6; 15; 8; 1; 10; 3; 12;
    6; 11; 3; 7; 0; 13; 5; 10; 14; 15; 8; 12; 4; 9; 1; 2;
    15; 5; 1; 3; 7; 14; 6; 9; 11; 8; 12; 2; 10; 0; 4; 13;
    8; 6; 4; 1; 3; 11; 15; 0; 5; 12; 2; 13; 9; 7; 10; 14;
    12; 15; 10; 4; 1; 5; 8; 7; 6; 2; 13; 14; 0; 3; 9; 11 ]%nat.

Definition rot_left : list Z :=
  [ 11; 14; 15; 12; 5; 8; 7; 9; 11; 13; 14; 15; 6; 7; 9; 8;
    7; 6; 8; 13; 11; 9; 7; 15; 7; 12; 15; 9; 11; 7; 13; 12;
    11; 13; 6; 7; 14; 9; 13; 15; 14; 8; 13; 6; 5; 12; 7; 5;
    11; 12; 14; 15; 14; 15; 9; 8; 9; 14; 5; 6; 8; 6; 5; 12;
    9; 15; 5; 11; 6; 8; 13; 12; 5; 12; 13; 14; 11; 8; 5; 6 ].

Definition rot_right : list Z :=
  [ 8; 9; 9; 11; 13; 15; 15; 5; 7; 7; 8; 11; 14; 14; 12; 6;
    9; 13; 15; 7; 12; 8; 9; 11; 7; 7; 12; 7; 6; 15; 13; 11;
    9; 7; 15; 11; 8; 6; 6; 14; 12; 13; 5; 14; 13; 13; 7; 5;
    15; 5; 8; 11; 14; 14; 6; 14; 6; 9; 12; 9; 12; 5; 15; 8;
    8; 5; 12; 9; 12; 5; 14; 6; 8; 13; 6; 5; 15; 13; 11; 11 ].

(** The added constant of each group of 16 steps, in decimal. *)
Definition add_left : list Z :=
  [ 0; 1518500249; 1859775393; 2400959708; 2840853838 ].
Definition add_right : list Z :=
  [ 1352829926; 1548603684; 1836072691; 2053994217; 0 ].

Definition f (j : nat) (x y z : Z) : Z :=
  if (j <? 16)%nat then Z.lxor (Z.lxor x y) z
  else if (j <? 32)%nat then Z.lor (Z.land x y) (Z.land (not32 x) z)
  else if (j <? 48)%nat then Z.lxor (Z.lor x (not32 y)) z
  else if (j <? 64)%nat then Z.lor (Z.land x z) (Z.land y (not32 z))
  else Z.lxor x (Z.lor y (not32 z)).

Definition state : Type := (Z * Z * Z * Z * Z)%type.

Definition step (X : list Z) (fj : nat) (word : nat) (rot add : Z) (st : state)
  : state :=
  let '(a, b, c, d, e) := st in
  let t := w32 (rol rot (w32 (a + f fj b c d + nth word X 0 + add)) + e) in
  (e, t, b, rol 10 c, d).

Definition left_line (X : list Z) (st : state) : state :=
  fold_left (fun st j =>
               step X j (nth j word_left 0%nat) (nth j rot_left 0)
                    (nth (j / 16) add_left 0) st)
            (seq 0 80) st.

Definition right_line (X : list Z) (st : state) : state :=
  fold_left (fun st j =>
               step X (79 - j) (nth j word_right 0%nat) (nth j rot_right 0)
                    (nth (j / 16) add_right 0) st)
            (seq 0 80) st.

Definition compress (h : state) (X : list Z) : state :=
  let '(h0, h1, h2, h3, h4) := h in
  let '(a, b, c, d, e) := left_line X h in
  let '(a', b', c', d', e') := right_line X h in
  (w32 (h1 + c + d'), w32 (h2 + d + e'), w32 (h3 + e + a'),
   w32 (h4 + a + b'), w32 (h0 + b + c')).

Definition pad (msg : bytes) : bytes :=
  let len := Z.of_nat (List.length msg) in
  let zeros := Z.to_nat ((55 - len) mod 64) in
  msg ++ [x80] ++ repeat x00 zeros ++ le_digits 8 (8 * len).

Fixpoint words (fuel : nat) (b : bytes) : list Z :=
  match fuel, b with
  | S fuel', b0 :: b1 :: b2 :: b3 :: b' =>
      int_from_bytes_little [b0; b1; b2; b3] :: words fuel' b'
  | _, _ => []
  end.

Fixpoint blocks (fuel : nat) (h : state) (ws : list Z) : state :=
  match fuel with
  | O => h
  | S fuel' =>
      match ws with
      | [] => h
      | _ => blocks fuel' (compress h (firstn 16 ws)) (skipn 16 ws)
      end
  end.

Definition initial : state :=
  (1732584193, 4023233417, 2562383102, 271733878, 3285377520).

(** [hashlib.new('ripemd160', msg).digest()] *)
Definition digest (msg : bytes) : bytes :=
  let padded := pad msg in
  let ws := words (List.length padded) padded in
  let '(h0, h1, h2, h3, h4) := blocks (List.length ws) initial ws in
  le_digits 4 h0 ++ le_digits 4 h1 ++ le_digits 4 h2
    ++ le_digits 4 h3 ++ le_digits 4 h4.

End RIPEMD160.

(** [b.hex()]: two lower-case hexadecimal digits per byte. *)
Definition hex_digit (d : Z) : ascii :=
  nth (Z.to_nat d) (list_ascii_of_string "0123456789abcdef") "0"%char.

Fixpoint hex (b : bytes) : string :=
  match b with
  | [] => EmptyString
  | c :: b' =>
      String (hex_digit (Z_of_byte c / 16))
             (String (hex_digit (Z_of_byte c mod 16)) (hex b'))
  end.

(** The value of a hexadecimal digit of either case. *)
Definition hex_value (c : ascii) : option Z :=
  let k := Z.of_nat (nat_of_ascii c) in
  if (48 <=? k) && (k <=? 57) then Some (k - 48)
  else if (97 <=? k) && (k <=? 102) then Some (k - 87)
  else if (65 <=? k) && (k <=? 70) then Some (k - 55)
  else None.

(** The ASCII whitespace that [fromhex] skips: tab, line feed, vertical
    tab, form feed, carriage return and space. *)
Definition isspace (c : ascii) : bool :=
  let k := Z.of_nat (nat_of_ascii c) in
  ((9 <=? k) && (k <=? 13)) || (k =? 32).

Definition fromhex_error (pos : Z) : exn :=
  ValueError (String.append
                "non-hexadecimal number found in fromhex() arg at position "
                (format_d pos)).

(** [bytes.fromhex(s)] (Python 3.7 and later): whitespace is skipped
    before each pair of digits, never inside a pair. *)
Fixpoint fromhex_from (pos : Z) (s : string) : res bytes :=
  match s with
  | EmptyString => Ok []
  | String c s' =>
      if isspace c then fromhex_from (pos + 1) s'
      else
        match hex_value c with
        | None => Raise (fromhex_error pos)
        | Some top =>
            match s' with
            | EmptyString => Raise (fromhex_error (pos + 1))
            | String c' s'' =>
                match hex_value c' with
                | None => Raise (fromhex_error (pos + 1))
                | Some bot =>
                    b <- fromhex_from (pos + 2) s'' ;;
                    Ok (byte_of_Z (16 * top + bot) :: b)
                end
            end
        end
  end.

Definition fromhex (s : string) : res bytes := fromhex_from 0 s.

(* ------------------------------------------------------------------ *)
(** ** Generate identity *)

(** [version[net]] raises [KeyError] on a key that the dict does not
    have; that exception can come from nowhere else, and is kept apart
    from the others. *)
Inductive lookup (A : Type) : Type :=
| KeyError (key : string)
| Found (a : A).

Arguments KeyError {A} key.
Arguments Found {A} a.

(** [x.to_bytes(nbytes, encoding)] on an attribute that may hold [None],
    which has no such method. *)
Definition attr_to_bytes (v : option Z) (nbytes : nat) (encoding : byteorder)
  : res bytes :=
  match v with
  | Some z => encode_int z nbytes encoding
  | None => Raise AttributeError
  end.

Module WalletOps.

Definition alphabet : string :=
  "123456789ABCDEFGHJKLMNPQRSTUVWXYZabcdefghijkmnopqrstuvwxyz".

(** The [while n] loop of [b58encode]: [divmod(n, 58)] and
    [chars.append(alphabet[i])]. *)
Fixpoint b58_loop (fuel : nat) (n : Z) (chars : list ascii) : res (list ascii) :=
  match fuel with
  | O => if n =? 0 then Ok chars else Raise FuelExhausted
  | S fuel' =>
      if n =? 0 then Ok chars
      else
        let n' := n / 58 in
        let i := n mod 58 in
        match String.get (Z.to_nat i) alphabet with
        | Some c => b58_loop fuel' n' (chars ++ [c])
        | None => Raise IndexError
        end
  end.

(** [GenerateWallet.b58encode]; [alphabet[0]] is the character "1". *)
Definition b58encode (self : Point) (b : bytes) : res string :=
  if negb (Nat.eqb (List.length b) 25) then Raise AssertionError
  else
    let n := int_from_bytes_big b in
    chars <- b58_loop (Z.to_nat (Z.log2 n + 1)) n [] ;;
    let num_leading_zeros := (List.length b - List.length (lstrip0 b))%nat in
    Ok (String.append
          (string_of_list_ascii (repeat "1"%char num_leading_zeros))
          (string_of_list_ascii (rev chars))).

(** [GenerateWallet.get_secret_key]; [drawn] stands for the value that
    [random.randrange(1, generator.n)] returns. *)
Definition get_secret_key (self : Point) (generator : Generator) (drawn : Z)
  : res Z :=
  if n generator <=? 1 then Raise (ValueError "empty range for randrange()")
  else Ok drawn.

(** [GenerateWallet.get_public_key]: the SEC bytes, or with [hash160]
    the hex digest of their hash as a str. *)
Definition get_public_key (self : Point) (secret_key : Z) (point : Point)
    (compressed hash160 : bool) : res pyval :=
  public_key <- PointOps.rmul secret_key point ;;
  pkb <- (if compressed then
            y <- as_int (Point_y public_key) ;;
            let prefix := if y mod 2 =? 0 then [x02] else [x03] in
            xb <- attr_to_bytes (Point_x public_key) 32 big ;;
            Ok (prefix ++ xb)
          else
            xb <- attr_to_bytes (Point_x public_key) 32 big ;;
            yb <- attr_to_bytes (Point_y public_key) 32 big ;;
            Ok ([x04] ++ xb ++ yb)) ;;
  if hash160 then Ok (PStr (hex (RIPEMD160.digest (SHA256.digest pkb))))
  else Ok (PBytes pkb).

(** The dict [version] of [get_address]. *)
Definition version_byte (net : string) : option bytes :=
  if String.eqb net "main" then Some [x00]
  else if String.eqb net "test" then Some [x6f]
  else None.

(** [GenerateWallet.get_address] *)
Definition get_address (self : Point) (public_key : pyval) (net : string)
  : lookup (res string) :=
  match version_byte net with
  | None => KeyError net
  | Some ver =>
      Found (h <- match public_key with
                  | PStr s => fromhex s
                  | _ => Raise TypeError
                  end ;;
             let ver_pkb_hash := ver ++ h in
             let checksum := SHA256.digest ver_pkb_hash in
             let checksum := firstn 4 (SHA256.digest checksum) in
             let byte_address := ver_pkb_hash ++ checksum in
             b58encode self byte_address)
  end.

End WalletOps.

(** [Transaction.transaction_id] *)
Definition transaction_id (self : Transaction)
    (transaction_inputs : list TransactionInput)
    (transaction_outputs : list TransactionOutput) : res string :=
  b <- TransactionOps.encode self transaction_inputs transaction_outputs (-1) ;;
  let res := SHA256.digest b in
  Ok (hex (rev (SHA256.digest res))).

(* ------------------------------------------------------------------ *)
(** ** Notions of the specification

    The definitions below follow the words of the specification, not the
    source; the theorems compare the source with them. *)

(** The P2PKH template as the specification words it:
    OP_DUP OP_HASH160 <pubkey_hash> OP_EQUALVERIFY OP_CHECKSIG. *)
Definition OP_DUP : Z := 0x76.
Definition OP_HASH160 : Z := 0xa9.
Definition OP_EQUALVERIFY : Z := 0x88.
Definition OP_CHECKSIG : Z := 0xac.

Definition p2pkh_template (pubkey_hash : pyval) : Script :=
  mkScript [PInt OP_DUP; PInt OP_HASH160; pubkey_hash;
            PInt OP_EQUALVERIFY; PInt OP_CHECKSIG].

(** The wire form of one input around an already chosen script encoding:
    reversed previous transaction id, 4-byte index, script, 4-byte
    sequence number. *)
Definition input_with_script (txin : TransactionInput) (script : res bytes)
  : res bytes :=
  idx <- encode_int (prev_transaction_idx txin) 4 little ;;
  sc <- script ;;
  sq <- encode_int (sequence txin) 4 little ;;
  Ok (rev (prev_transaction_id txin) ++ idx ++ sc ++ sq).

(** The script of input [i] while input [j] is being signed: the previous
    output's locking script for [i = j], an empty script otherwise. *)
Definition sighash_script (j i : Z) (txin : TransactionInput) : res bytes :=
  if i =? j then ScriptOps.encode (prev_transaction_script_pubkey txin)
  else ScriptOps.encode (mkScript []).

(** The actual unlocking script of an input; there is none to encode when
    the field holds [None]. *)
Definition actual_script (i : Z) (txin : TransactionInput) : res bytes :=
  match script_sig txin with
  | Some sc => ScriptOps.encode sc
  | None => Raise AttributeError
  end.

Definition SIGHASH_ALL_trailer : bytes := [x01; x00; x00; x00].

(** A transaction serialized with a given choice of script per input and a
    given trailer. *)
Definition serialize_with (tx : Transaction)
    (script_for : Z -> TransactionInput -> res bytes) (trailer : bytes)
    (ins : list TransactionInput) (outs : list TransactionOutput) : res bytes :=
  v <- encode_int (version tx) 4 little ;;
  n_in <- encode_varint (Z.of_nat (List.length ins)) ;;
  ins_b <- mapM (fun it => input_with_script (snd it) (script_for (fst it) (snd it)))
                (TransactionOps.enumerate_from 0 ins) ;;
  n_out <- encode_varint (Z.of_nat (List.length outs)) ;;
  outs_b <- mapM (TransactionOps.encode_transaction_output tx) outs ;;
  lt <- encode_int (locktime tx) 4 little ;;
  Ok (v ++ n_in ++ List.concat ins_b ++ n_out ++ List.concat outs_b ++ lt ++ trailer).

(** The trailer is appended to, or left out of, what [Transaction.encode]
    has collected up to the locktime. *)
Definition appends_sighash_type (tx : Transaction) (ins : list TransactionInput)
    (outs : list TransactionOutput) (sig_index : Z) : Prop :=
  exists out, TransactionOps.encode_chunks tx ins outs sig_index = Ok out
              /\ TransactionOps.encode tx ins outs sig_index
                 = Ok (join out ++ SIGHASH_ALL_trailer).

Definition omits_sighash_type (tx : Transaction) (ins : list TransactionInput)
    (outs : list TransactionOutput) (sig_index : Z) : Prop :=
  exists out, TransactionOps.encode_chunks tx ins outs sig_index = Ok out
              /\ TransactionOps.encode tx ins outs sig_index = Ok (join out).

(** A point of the curve [c]: the identity, or an object on [c] whose
    coordinates are field elements that satisfy the curve equation. *)
Definition on_curve (c : Curve) (P : Point) : Prop :=
  match P with
  | INF => True
  | Pt c' (Some x) (Some y) =>
      c' = Some c /\ 0 <= x < p c /\ 0 <= y < p c
      /\ (y ^ 2) mod p c = (x ^ 3 + a c * x + b c) mod p c
  | Pt _ _ _ => False
  end.

(** A secret key in range for secp256k1 on which [sign], with the empty
    message and the ephemeral scalar 1, computes s = 2^255. *)
Definition high_s_secret_key : Z :=
  0xd12384430c1891c595aa39a6b2bb83da505d3ddf2a03395caf42d4b75addbb95.

(** The identity, or an object of the curve [c] with integer coordinates. *)
Definition integer_point (c : Curve) (P : Point) : Prop :=
  match P with
  | INF => True
  | Pt (Some c') (Some _) (Some _) => c' = c
  | Pt _ _ _ => False
  end.

(** A command that [Script.encode] cannot encode: an int that is not a
    byte value, or a bytes value of 75 bytes or more. *)
Definition unencodable (cmd : pyval) : Prop :=
  match isinstance_int cmd, isinstance_bytes cmd with
  | Some i, _ => i < 0 \/ 255 < i
  | None, Some content => (75 <= List.length content)%nat
  | None, None => False
  end.

(** An input with its [script_sig], or with its
    [prev_transaction_script_pubkey], replaced. *)
Definition with_script_sig (sc : option Script) (txin : TransactionInput)
  : TransactionInput :=
  {| prev_transaction_id := prev_transaction_id txin;
     prev_transaction_idx := prev_transaction_idx txin;
     script_sig := sc;
     sequence := sequence txin;
     prev_transaction_script_pubkey := prev_transaction_script_pubkey txin |}.

Definition with_script_pubkey (sc : Script) (txin : TransactionInput)
  : TransactionInput :=
  {| prev_transaction_id := prev_transaction_id txin;
     prev_transaction_idx := prev_transaction_idx txin;
     script_sig := script_sig txin;
     sequence := sequence txin;
     prev_transaction_script_pubkey := sc |}.

(** The content of a DER INTEGER that holds a positive number in the
    shortest form: the sign bit of the first byte is clear, and a leading
    zero byte is there only in front of a byte whose high bit is set. *)
Definition der_positive_integer (nb : bytes) : Prop :=
  match nb with
  | [] => False
  | c :: rest =>
      Z_of_byte c < 0x80
      /\ (c = x00 -> match rest with
                     | c' :: _ => 0x80 <= Z_of_byte c'
                     | [] => False
                     end)
  end.

(** Reading Base58: the position of a character in the alphabet, the
    number that a string of such characters denotes (most significant digit
    first), and the number of leading "1" characters, which stand for the
    leading zero bytes. *)
Fixpoint index_from (k : Z) (c : ascii) (l : list ascii) : option Z :=
  match l with
  | [] => None
  | d :: l' => if Ascii.eqb c d then Some k else index_from (k + 1) c l'
  end.

Definition b58_index (c : ascii) : option Z :=
  index_from 0 c (list_ascii_of_string WalletOps.alphabet).

Fixpoint b58_value_from (acc : Z) (l : list ascii) : option Z :=
  match l with
  | [] => Some acc
  | c :: l' =>
      match b58_index c with
      | Some d => b58_value_from (58 * acc + d) l'
      | None => None
      end
  end.

Definition b58_value (s : string) : option Z :=
  b58_value_from 0 (list_ascii_of_string s).

Fixpoint leading_ones (l : list ascii) : nat :=
  match l with
  | c :: l' => if Ascii.eqb c "1" then S (leading_ones l') else O
  | [] => O
  end.

Fixpoint leading_zero_bytes (b : bytes) : nat :=
  match b with
  | c :: b' => if Byte.eqb c x00 then S (leading_zero_bytes b') else O
  | [] => O
  end.

(* ================================================================== *)
(** * Properties *)

(** ** The extended Euclidean loop *)

Section InvLoop.

Variables n0 p0 : Z.

(** Both remainders stay linear combinations of the two arguments. *)
Lemma inv_loop_bezout fuel old_r r old_s s old_t t g x y :
  old_r = old_s * n0 + old_t * p0 ->
  r = s * n0 + t * p0 ->
  inv_loop fuel old_r r old_s s old_t t = Some (g, x, y) ->
  g = x * n0 + y * p0.
Proof.
  revert old_r r old_s s old_t t.
  induction fuel as [|fuel IH]; intros old_r r old_s s old_t t Ho Hr; simpl.
  - discriminate.
  - destruct (Z.eqb_spec r 0) as [Hz|Hz].
    + intros [= <- <- <-]. exact Ho.
    + apply IH; [exact Hr | rewrite Ho, Hr; ring].
Qed.

End InvLoop.

Lemma gcd_floor_step (old_r r : Z) :
  Z.gcd r (old_r - old_r / r * r) = Z.gcd old_r r.
Proof.
  replace (old_r - old_r / r * r) with (old_r + (- (old_r / r)) * r) by ring.
  rewrite Z.gcd_add_mult_diag_r. apply Z.gcd_comm.
Qed.

(** From a non-negative remainder on, the first component of the result is
    the greatest common divisor. *)
Lemma inv_loop_gcd fuel old_r r old_s s old_t t g x y :
  0 <= r -> (r = 0 -> 0 <= old_r) ->
  inv_loop fuel old_r r old_s s old_t t = Some (g, x, y) ->
  g = Z.gcd old_r r.
Proof.
  revert old_r r old_s s old_t t.
  induction fuel as [|fuel IH]; intros old_r r old_s s old_t t Hr Ho; simpl.
  - discriminate.
  - destruct (Z.eqb_spec r 0) as [Hz|Hz].
    + intros [= <- <- <-]. subst r. rewrite Z.gcd_0_r, Z.abs_eq by auto. reflexivity.
    + intros Hl. apply IH in Hl.
      * rewrite Hl. apply gcd_floor_step.
      * pose proof (Z.mod_pos_bound old_r r ltac:(lia)).
        rewrite Z.mod_eq in * by exact Hz. lia.
      * lia.
Qed.

(** Between two positive remainders the larger one is more than halved by
    the next step, so the sum of the bit lengths bounds the number of
    iterations. *)
Lemma inv_loop_fuel_pos fuel old_r r old_s s old_t t :
  0 <= r <= old_r ->
  Z.log2 old_r + Z.log2 r + 2 <= Z.of_nat fuel ->
  inv_loop fuel old_r r old_s s old_t t <> None.
Proof.
  revert old_r r old_s s old_t t.
  induction fuel as [|fuel IH]; intros old_r r old_s s old_t t Hr Hf.
  - pose proof (Z.log2_nonneg old_r). pose proof (Z.log2_nonneg r). lia.
  - simpl. destruct (Z.eqb_spec r 0) as [Hz|Hz]; [discriminate|].
    assert (Hm : old_r - old_r / r * r = old_r mod r)
      by (rewrite Z.mod_eq by exact Hz; ring).
    rewrite Hm.
    pose proof (Z.mod_pos_bound old_r r ltac:(lia)) as Hb.
    destruct (Z.eq_dec (old_r mod r) 0) as [H0|H0].
    + rewrite H0. destruct fuel as [|fuel].
      * pose proof (Z.log2_nonneg old_r). pose proof (Z.log2_nonneg r). lia.
      * simpl. discriminate.
    + apply IH; [lia|].
      assert (Hq : 1 <= old_r / r) by (apply Z.div_le_lower_bound; lia).
      assert (Hd : old_r = r * (old_r / r) + old_r mod r)
        by (apply Z.div_mod; exact Hz).
      assert (H2 : 2 * (old_r mod r) <= old_r) by nia.
      assert (Hl : Z.log2 (old_r mod r) < Z.log2 old_r).
      { pose proof (Z.log2_le_mono (2 * (old_r mod r)) old_r H2) as Hle.
        rewrite Z.log2_double in Hle by lia. lia. }
      lia.
Qed.

(** Negating both remainders negates the first component of the result
    and nothing else: floor division gives the same quotients. *)
Lemma inv_loop_opp fuel old_r r old_s s old_t t :
  inv_loop fuel (- old_r) (- r) old_s s old_t t =
  option_map (fun gxy => (- fst (fst gxy), snd (fst gxy), snd gxy))
             (inv_loop fuel old_r r old_s s old_t t).
Proof.
  revert old_r r old_s s old_t t.
  induction fuel as [|fuel IH]; intros old_r r old_s s old_t t; simpl.
  - reflexivity.
  - destruct (Z.eqb_spec r 0) as [Hz|Hz].
    + subst r. reflexivity.
    + destruct (Z.eqb_spec (- r) 0) as [Hz'|Hz']; [lia|].
      rewrite Z.div_opp_opp by exact Hz.
      replace (- old_r - old_r / r * - r) with (- (old_r - old_r / r * r)) by ring.
      apply IH.
Qed.

Lemma log2_mod_le (x m : Z) : 0 < m -> Z.log2 (x mod m) <= Z.log2 m.
Proof.
  intros Hm. apply Z.log2_le_mono.
  pose proof (Z.mod_pos_bound x m Hm). lia.
Qed.

Lemma inv_loop_enough_pos (n p : Z) :
  0 < p -> inv_loop (inv_fuel p) n p 1 0 0 1 <> None.
Proof.
  intros Hp. unfold inv_fuel. rewrite Z.abs_eq by lia.
  pose proof (Z.log2_nonneg p) as Hl.
  replace (Z.to_nat (2 * Z.log2 p + 4)) with (S (Z.to_nat (2 * Z.log2 p + 3))) by lia.
  cbn [inv_loop]. destruct (Z.eqb_spec p 0) as [Hz|Hz]; [lia|].
  assert (Hm : n - n / p * p = n mod p) by (rewrite Z.mod_eq by exact Hz; ring).
  rewrite Hm.
  pose proof (Z.mod_pos_bound n p Hp).
  pose proof (log2_mod_le n p Hp).
  apply inv_loop_fuel_pos; lia.
Qed.

(** The iteration budget of [inv] is never used up. *)
Lemma inv_loop_enough (n p : Z) : inv_loop (inv_fuel p) n p 1 0 0 1 <> None.
Proof.
  destruct (Z.lt_trichotomy p 0) as [Hp|[Hp|Hp]].
  - replace n with (- - n) by lia. replace p with (- - p) at 2 by lia.
    rewrite inv_loop_opp.
    replace (inv_fuel p) with (inv_fuel (- p))
      by (unfold inv_fuel; rewrite Z.abs_opp; reflexivity).
    pose proof (inv_loop_enough_pos (- n) (- p) ltac:(lia)) as H.
    destruct (inv_loop (inv_fuel (- p)) (- n) (- p) 1 0 0 1); [discriminate|contradiction].
  - subst p. discriminate.
  - apply inv_loop_enough_pos. exact Hp.
Qed.

Lemma inv_never_out_of_fuel (n p : Z) : inv n p <> Raise FuelExhausted.
Proof.
  unfold inv. pose proof (inv_loop_enough n p) as H.
  destruct (inv_loop (inv_fuel p) n p 1 0 0 1) as [[[g x] y]|]; [|contradiction].
  destruct (p =? 0); discriminate.
Qed.

(** What [inv] returns on a modulus of at least 2 and an argument coprime
    to it. *)
Lemma inv_spec (n p : Z) :
  2 <= p -> Z.gcd n p = 1 ->
  exists m, inv n p = Ok m /\ 0 <= m < p /\ (n * m) mod p = 1.
Proof.
  intros Hp Hg. unfold inv.
  pose proof (inv_loop_enough n p) as Hsome.
  destruct (inv_loop (inv_fuel p) n p 1 0 0 1) as [[[g x] y]|] eqn:Hl; [|contradiction].
  pose proof (inv_loop_bezout n p (inv_fuel p) n p 1 0 0 1 g x y
                ltac:(ring) ltac:(ring) Hl) as Hb.
  pose proof (inv_loop_gcd (inv_fuel p) n p 1 0 0 1 g x y
                ltac:(lia) ltac:(lia) Hl) as Hgcd.
  rewrite Hg in Hgcd. subst g.
  destruct (Z.eqb_spec p 0) as [Hz|Hz]; [lia|].
  exists (x mod p). split; [reflexivity|]. split.
  - apply Z.mod_pos_bound. lia.
  - rewrite Z.mul_mod_idemp_r by exact Hz.
    replace (n * x) with (1 + (- y) * p) by lia.
    rewrite Z.mod_add by exact Hz. apply Z.mod_small. lia.
Qed.

(** C6: for all integers n and p with p >= 2 and gcd(n, p) = 1, negative n
    included, [inv n p] returns an m with 0 <= m < p and (n * m) mod p = 1. *)
Theorem C6_inv_is_modular_inverse (n p : Z) :
  2 <= p -> Z.gcd n p = 1 ->
  exists m, inv n p = Ok m /\ 0 <= m < p /\ (n * m) mod p = 1.
Proof. exact (inv_spec n p). Qed.

Lemma C6_inv_is_modular_inverse_witness :
  exists m, inv (-17) 5 = Ok m /\ 0 <= m < 5 /\ (-17 * m) mod 5 = 1.
Proof.
  apply (C6_inv_is_modular_inverse (-17) 5); [lia | reflexivity].
Defined.

(** ** Fixed-width integers *)

Lemma Z_of_byte_of_Z (z : Z) : Z_of_byte (byte_of_Z z) = z mod 256.
Proof.
  unfold Z_of_byte, byte_of_Z.
  pose proof (Z.mod_pos_bound z 256 ltac:(lia)) as Hb.
  destruct (Byte.of_N (Z.to_N (z mod 256))) as [c|] eqn:Hc.
  - apply Byte.to_of_N in Hc. rewrite Hc. lia.
  - apply Byte.of_N_None_iff in Hc. lia.
Qed.

Lemma Z_of_byte_range (c : byte) : 0 <= Z_of_byte c < 256.
Proof.
  unfold Z_of_byte. pose proof (Byte.to_N_bounded c). lia.
Qed.

Lemma le_digits_length (nbytes : nat) (i : Z) :
  List.length (le_digits nbytes i) = nbytes.
Proof.
  revert i. induction nbytes as [|k IH]; intros i; simpl; [|rewrite IH]; reflexivity.
Qed.

(** Reading the digits back gives the argument modulo [256 ^ nbytes]. *)
Lemma int_from_le_digits (nbytes : nat) (i : Z) :
  int_from_bytes_little (le_digits nbytes i) = i mod 256 ^ Z.of_nat nbytes.
Proof.
  revert i. induction nbytes as [|k IH]; intros i.
  - simpl. rewrite Z.mod_1_r. reflexivity.
  - cbn [le_digits int_from_bytes_little].
    rewrite Z_of_byte_of_Z, IH.
    rewrite Nat2Z.inj_succ, Z.pow_succ_r by lia.
    rewrite Z.rem_mul_r by lia. reflexivity.
Qed.

Lemma encode_int_little_ok (i : Z) (nbytes : nat) :
  0 <= i < 256 ^ Z.of_nat nbytes ->
  exists v, encode_int i nbytes little = Ok v
            /\ List.length v = nbytes /\ int_from_bytes_little v = i.
Proof.
  intros Hi. unfold encode_int.
  destruct (Z.ltb_spec i 0); [lia|].
  destruct (Z.leb_spec (256 ^ Z.of_nat nbytes) i); [lia|]. simpl.
  eexists. split; [reflexivity|]. split.
  - apply le_digits_length.
  - rewrite int_from_le_digits. apply Z.mod_small. lia.
Qed.

Lemma encode_int_big_ok (i : Z) (nbytes : nat) :
  0 <= i < 256 ^ Z.of_nat nbytes ->
  exists v, encode_int i nbytes big = Ok v
            /\ List.length v = nbytes /\ int_from_bytes_big v = i.
Proof.
  intros Hi. unfold encode_int.
  destruct (Z.ltb_spec i 0); [lia|].
  destruct (Z.leb_spec (256 ^ Z.of_nat nbytes) i); [lia|]. simpl.
  eexists. split; [reflexivity|]. split.
  - rewrite length_rev. apply le_digits_length.
  - unfold int_from_bytes_big. rewrite rev_involutive, int_from_le_digits.
    apply Z.mod_small. lia.
Qed.

(** ** Variable-length integers *)

(** C9: for every non-negative i, [encode_varint i] is the single byte i
    when i < 0xfd; the tag 0xfd, 0xfe or 0xff followed by the 2-, 4- or
    8-byte little-endian value of i in the first of the ranges below 2^16,
    2^32, 2^64 that holds i; and it raises the [ValueError] naming i, and
    no other result, exactly when i >= 2^64. *)
Theorem C9_encode_varint_widths (i : Z) :
  0 <= i ->
  (i < 0xfd ->
     exists c, encode_varint i = Ok [c] /\ Z_of_byte c = i) /\
  (0xfd <= i < 2 ^ 16 ->
     exists v, encode_varint i = Ok (xfd :: v)
               /\ List.length v = 2%nat /\ int_from_bytes_little v = i) /\
  (2 ^ 16 <= i < 2 ^ 32 ->
     exists v, encode_varint i = Ok (xfe :: v)
               /\ List.length v = 4%nat /\ int_from_bytes_little v = i) /\
  (2 ^ 32 <= i < 2 ^ 64 ->
     exists v, encode_varint i = Ok (xff :: v)
               /\ List.length v = 8%nat /\ int_from_bytes_little v = i) /\
  (forall e, encode_varint i = Raise e <->
             2 ^ 64 <= i /\
             e = ValueError (String.append "integer too large: " (format_d i))).
Proof.
  intros H0.
  assert (Hsmall : i < 0xfd ->
            exists c, encode_varint i = Ok [c] /\ Z_of_byte c = i).
  { intros Hi. unfold encode_varint.
    destruct (Z.ltb_spec i 0xfd); [|lia].
    unfold bytes_of_ints. cbn [mapM].
    destruct (Z.leb_spec 0 i); [|lia]. destruct (Z.ltb_spec i 256); [|lia].
    cbn. eexists. split; [reflexivity|].
    rewrite Z_of_byte_of_Z. apply Z.mod_small. lia. }
  assert (Hw2 : 0xfd <= i < 2 ^ 16 ->
            exists v, encode_varint i = Ok (xfd :: v)
                      /\ List.length v = 2%nat /\ int_from_bytes_little v = i).
  { intros Hi. unfold encode_varint.
    destruct (Z.ltb_spec i 0xfd); [lia|].
    destruct (Z.ltb_spec i 0x10000); [|lia].
    destruct (encode_int_little_ok i 2 ltac:(change (256 ^ Z.of_nat 2) with 65536; lia))
      as (v & -> & Hlen & Hval).
    exists v. auto. }
  assert (Hw4 : 2 ^ 16 <= i < 2 ^ 32 ->
            exists v, encode_varint i = Ok (xfe :: v)
                      /\ List.length v = 4%nat /\ int_from_bytes_little v = i).
  { intros Hi. unfold encode_varint.
    destruct (Z.ltb_spec i 0xfd); [lia|].
    destruct (Z.ltb_spec i 0x10000); [lia|].
    destruct (Z.ltb_spec i 0x100000000); [|lia].
    destruct (encode_int_little_ok i 4 ltac:(change (256 ^ Z.of_nat 4) with (2 ^ 32); lia))
      as (v & -> & Hlen & Hval).
    exists v. auto. }
  assert (Hw8 : 2 ^ 32 <= i < 2 ^ 64 ->
            exists v, encode_varint i = Ok (xff :: v)
                      /\ List.length v = 8%nat /\ int_from_bytes_little v = i).
  { intros Hi. unfold encode_varint.
    destruct (Z.ltb_spec i 0xfd); [lia|].
    destruct (Z.ltb_spec i 0x10000); [lia|].
    destruct (Z.ltb_spec i 0x100000000); [lia|].
    destruct (Z.ltb_spec i 0x10000000000000000); [|lia].
    destruct (encode_int_little_ok i 8 ltac:(change (256 ^ Z.of_nat 8) with (2 ^ 64); lia))
      as (v & -> & Hlen & Hval).
    exists v. auto. }
  do 4 (split; [assumption|]).
  intros e. split.
  - intros He. split; [|revert He].
    destruct (Z.lt_ge_cases i 0xfd) as [Hc|Hc];
      [destruct (Hsmall Hc) as (c & Hc' & _); congruence|].
    destruct (Z.lt_ge_cases i (2 ^ 16)) as [Hc2|Hc2];
      [destruct (Hw2 ltac:(lia)) as (v & Hv & _); congruence|].
    destruct (Z.lt_ge_cases i (2 ^ 32)) as [Hc4|Hc4];
      [destruct (Hw4 ltac:(lia)) as (v & Hv & _); congruence|].
    destruct (Z.lt_ge_cases i (2 ^ 64)) as [Hc8|Hc8];
      [destruct (Hw8 ltac:(lia)) as (v & Hv & _); congruence|].
    exact Hc8.
    unfold encode_varint.
    destruct (Z.ltb_spec i 0xfd) as [Hc|Hc];
      [destruct (Hsmall Hc) as (c & Hc' & _); unfold encode_varint in Hc';
       destruct (Z.ltb_spec i 0xfd); [congruence|lia]|].
    destruct (Z.ltb_spec i 0x10000) as [Hc2|Hc2].
    { destruct (encode_int_little_ok i 2
                  ltac:(change (256 ^ Z.of_nat 2) with 65536; lia)) as (v & -> & _).
      discriminate. }
    destruct (Z.ltb_spec i 0x100000000) as [Hc4|Hc4].
    { destruct (encode_int_little_ok i 4
                  ltac:(change (256 ^ Z.of_nat 4) with (2 ^ 32); lia)) as (v & -> & _).
      discriminate. }
    destruct (Z.ltb_spec i 0x10000000000000000) as [Hc8|Hc8].
    { destruct (encode_int_little_ok i 8
                  ltac:(change (256 ^ Z.of_nat 8) with (2 ^ 64); lia)) as (v & -> & _).
      discriminate. }
    congruence.
  - intros [Hi ->]. unfold encode_varint.
    destruct (Z.ltb_spec i 0xfd); [lia|].
    destruct (Z.ltb_spec i 0x10000); [lia|].
    destruct (Z.ltb_spec i 0x100000000); [lia|].
    destruct (Z.ltb_spec i 0x10000000000000000); [lia|].
    reflexivity.
Qed.

Lemma C9_encode_varint_widths_witness :
  exists v, encode_varint 70000 = Ok (xfe :: v)
            /\ List.length v = 4%nat /\ int_from_bytes_little v = 70000.
Proof.
  destruct (C9_encode_varint_widths 70000 ltac:(lia)) as (_ & _ & Hw4 & _).
  apply Hw4. lia.
Defined.

(** ** DER encoding of signatures *)

Lemma int_from_bytes_little_app (u v : bytes) :
  int_from_bytes_little (u ++ v) =
  int_from_bytes_little u + 256 ^ Z.of_nat (List.length u) * int_from_bytes_little v.
Proof.
  induction u as [|c u IH].
  - cbn [app int_from_bytes_little List.length]. change (256 ^ Z.of_nat 0) with 1. ring.
  - cbn [app int_from_bytes_little List.length]. rewrite IH.
    rewrite Nat2Z.inj_succ, Z.pow_succ_r by lia. ring.
Qed.

(** Only the all-zero strings are stripped to nothing. *)
Lemma lstrip0_nil_value (v : bytes) :
  lstrip0 v = [] -> int_from_bytes_big v = 0.
Proof.
  unfold int_from_bytes_big.
  induction v as [|c v IH]; [reflexivity|].
  cbn [lstrip0]. destruct (Byte.eqb c x00) eqn:Hc; [|discriminate].
  intros Hv. apply Byte.byte_dec_bl in Hc. subst c.
  cbn [rev]. rewrite int_from_bytes_little_app, (IH Hv).
  cbn [int_from_bytes_little]. change (Z_of_byte x00) with 0. lia.
Qed.

Lemma lstrip0_length (v : bytes) : (List.length (lstrip0 v) <= List.length v)%nat.
Proof.
  induction v as [|c v IH]; [apply Nat.le_refl|].
  cbn [lstrip0]. destruct (Byte.eqb c x00); cbn [List.length]; lia.
Qed.

(** [dern] returns between one and 33 bytes on every value that has a
    32-byte encoding and is not zero. *)
Lemma dern_ok (n : Z) :
  1 <= n <= 2 ^ 256 - 1 ->
  exists nb, SignatureOps.dern n = Ok nb /\ (1 <= List.length nb <= 33)%nat.
Proof.
  intros Hn. unfold SignatureOps.dern.
  destruct (encode_int_big_ok n 32
              ltac:(change (256 ^ Z.of_nat 32) with (2 ^ 256); lia))
    as (v & -> & Hlen & Hval).
  cbn [bind].
  pose proof (lstrip0_length v) as Hs.
  destruct (lstrip0 v) as [|first rest] eqn:Hstrip.
  - apply lstrip0_nil_value in Hstrip. lia.
  - eexists. split; [reflexivity|].
    rewrite length_app. cbn [List.length] in *.
    destruct (0x80 <=? Z_of_byte first); cbn [List.length]; lia.
Qed.

Lemma bytes_of_ints_pair (u v : Z) :
  0 <= u < 256 -> 0 <= v < 256 ->
  bytes_of_ints [u; v] = Ok [byte_of_Z u; byte_of_Z v].
Proof.
  intros Hu Hv. unfold bytes_of_ints. cbn [mapM].
  destruct (Z.leb_spec 0 u); [|lia]. destruct (Z.ltb_spec u 256); [|lia].
  destruct (Z.leb_spec 0 v); [|lia]. destruct (Z.ltb_spec v 256); [|lia].
  reflexivity.
Qed.

(** C10: for every signature with r and s in [1, 2^256 - 1],
    [signature_encode] returns; the 32-byte big-endian encoding of each
    component keeps at least one byte after its leading zero bytes are
    stripped, so the first-byte access of [dern] is in range. *)
Theorem C10_signature_encode_returns (sig : Signature) :
  1 <= r sig <= 2 ^ 256 - 1 ->
  1 <= s sig <= 2 ^ 256 - 1 ->
  (exists frame, SignatureOps.signature_encode sig = Ok frame) /\
  (forall n, n = r sig \/ n = s sig ->
     exists nb, encode_int n 32 big = Ok nb /\ lstrip0 nb <> []).
Proof.
  intros Hr Hs. split.
  - unfold SignatureOps.signature_encode.
    destruct (dern_ok (r sig) Hr) as (rb & -> & Hrb).
    destruct (dern_ok (s sig) Hs) as (sb & -> & Hsb).
    cbn [bind].
    rewrite (bytes_of_ints_pair 0x02 (Z.of_nat (List.length rb))) by lia.
    rewrite (bytes_of_ints_pair 0x02 (Z.of_nat (List.length sb))) by lia.
    cbn [bind].
    rewrite bytes_of_ints_pair.
    + cbn [bind]. eexists. reflexivity.
    + lia.
    + unfold join. cbn [List.concat].
      rewrite !length_app. cbn [List.length]. lia.
  - intros n Hn.
    assert (Hrange : 1 <= n <= 2 ^ 256 - 1) by (destruct Hn; subst n; assumption).
    destruct (encode_int_big_ok n 32
                ltac:(change (256 ^ Z.of_nat 32) with (2 ^ 256); lia))
      as (v & Hv & _ & Hval).
    exists v. split; [exact Hv|].
    intros Hnil. apply lstrip0_nil_value in Hnil. lia.
Qed.

Lemma C10_signature_encode_returns_witness :
  (exists frame, SignatureOps.signature_encode (mkSignature 1 128) = Ok frame) /\
  (forall n, n = 1 \/ n = 128 ->
     exists nb, encode_int n 32 big = Ok nb /\ lstrip0 nb <> []).
Proof.
  apply (C10_signature_encode_returns (mkSignature 1 128)); simpl; lia.
Defined.

(** ** Scripts *)

Lemma mapM_app {A B : Type} (f : A -> res B) (l1 l2 : list A) :
  mapM f (l1 ++ l2) =
  (xs <- mapM f l1 ;; ys <- mapM f l2 ;; Ok (xs ++ ys)).
Proof.
  induction l1 as [|x l1 IH]; cbn [app mapM bind].
  - destruct (mapM f l2); reflexivity.
  - destruct (f x) as [y|e]; cbn [bind]; [|reflexivity].
    rewrite IH. destruct (mapM f l1) as [xs|e]; cbn [bind]; [|reflexivity].
    destruct (mapM f l2); reflexivity.
Qed.

Lemma encode_cmd_other (v : pyval) :
  isinstance_int v = None -> isinstance_bytes v = None ->
  ScriptOps.encode_cmd v = Ok [].
Proof.
  intros Hi Hb. unfold ScriptOps.encode_cmd. rewrite Hi, Hb. reflexivity.
Qed.

(** C1: the implied locking script of [create_transaction_input] has the
    opcode 126 (0x7e) in the fourth place, where the P2PKH template has
    OP_EQUALVERIFY, 136 (0x88); for no argument is it the template. *)
Theorem C1_locking_script_fourth_opcode
    (self : Transaction) (txid : bytes) (idx : Z) (publickey_hash : pyval)
    (script_sig : option Script) (sequence : Z) :
  let txin := TransactionOps.create_transaction_input
                self txid idx publickey_hash script_sig sequence in
  cmds (prev_transaction_script_pubkey txin)
    = [PInt 118; PInt 169; publickey_hash; PInt 126; PInt 172]
  /\ nth_error (cmds (prev_transaction_script_pubkey txin)) 3 = Some (PInt 126)
  /\ nth_error (cmds (p2pkh_template publickey_hash)) 3 = Some (PInt 136)
  /\ prev_transaction_script_pubkey txin <> p2pkh_template publickey_hash.
Proof.
  cbn. repeat split. discriminate.
Qed.

(** C2: a command that is neither an int nor a bytes value adds nothing to
    the encoding of a script and raises nothing: the script encodes as it
    does with that command removed.  For the implied locking script built
    from a hex-string hash the encoding is the length byte 4 and the four
    opcodes, without the hash. *)
Theorem C2_script_encode_skips_other_values (l1 l2 : list pyval) (v : pyval) :
  isinstance_int v = None -> isinstance_bytes v = None ->
  ScriptOps.encode (mkScript (l1 ++ v :: l2)) = ScriptOps.encode (mkScript (l1 ++ l2))
  /\ forall self txid idx hash script_sig sequence,
       ScriptOps.encode
         (prev_transaction_script_pubkey
            (TransactionOps.create_transaction_input
               self txid idx (PStr hash) script_sig sequence))
       = Ok [x04; x76; xa9; x7e; xac].
Proof.
  intros Hi Hb. split; [|reflexivity].
  unfold ScriptOps.encode. cbn [cmds].
  rewrite !mapM_app. cbn [mapM]. rewrite (encode_cmd_other v Hi Hb).
  destruct (mapM ScriptOps.encode_cmd l1) as [xs|e]; cbn [bind]; [|reflexivity].
  destruct (mapM ScriptOps.encode_cmd l2) as [ys|e]; cbn [bind]; [|reflexivity].
  rewrite !concat_app. reflexivity.
Qed.

Lemma C2_script_encode_skips_other_values_witness :
  ScriptOps.encode (mkScript ([PInt 118; PInt 169] ++ PStr "00ff" :: [PInt 126; PInt 172]))
    = ScriptOps.encode (mkScript ([PInt 118; PInt 169] ++ [PInt 126; PInt 172]))
  /\ forall self txid idx hash script_sig sequence,
       ScriptOps.encode
         (prev_transaction_script_pubkey
            (TransactionOps.create_transaction_input
               self txid idx (PStr hash) script_sig sequence))
       = Ok [x04; x76; xa9; x7e; xac].
Proof.
  apply (C2_script_encode_skips_other_values
           [PInt 118; PInt 169] [PInt 126; PInt 172] (PStr "00ff"));
    reflexivity.
Defined.

(** ** Transaction serialization *)

Lemma empty_script_encoding : ScriptOps.encode (mkScript []) = Ok [x00].
Proof. reflexivity. Qed.

Lemma mapM_ext {A B : Type} (f g : A -> res B) (l : list A) :
  (forall x, In x l -> f x = g x) -> mapM f l = mapM g l.
Proof.
  induction l as [|x l IH]; intros H; cbn [mapM]; [reflexivity|].
  rewrite (H x (or_introl eq_refl)), IH; [reflexivity|].
  intros y Hy. apply H. right. exact Hy.
Qed.

Lemma mapM_snd_enumerate {A B : Type} (f : A -> res B) (k : Z) (l : list A) :
  mapM (fun it => f (snd it)) (TransactionOps.enumerate_from k l) = mapM f l.
Proof.
  revert k. induction l as [|x l IH]; intros k; cbn [TransactionOps.enumerate_from mapM];
    [reflexivity|].
  cbn [snd]. rewrite IH. reflexivity.
Qed.

Lemma encode_transaction_input_override (tx : Transaction) (txin : TransactionInput)
    (j i : Z) :
  TransactionOps.encode_transaction_input tx txin (PBool (j =? i))
  = input_with_script txin (sighash_script j i txin).
Proof.
  unfold TransactionOps.encode_transaction_input, input_with_script, sighash_script, join.
  rewrite (Z.eqb_sym i j).
  destruct (encode_int (prev_transaction_idx txin) 4 little) as [idx|e];
    cbn [bind]; [|reflexivity].
  destruct (j =? i).
  - destruct (ScriptOps.encode (prev_transaction_script_pubkey txin)) as [sc|e];
      cbn [bind]; [|reflexivity].
    destruct (encode_int (sequence txin) 4 little); cbn [bind List.concat];
      [rewrite app_nil_r|]; reflexivity.
  - destruct (ScriptOps.encode (mkScript [])) as [sc|e]; cbn [bind]; [|reflexivity].
    destruct (encode_int (sequence txin) 4 little); cbn [bind List.concat];
      [rewrite app_nil_r|]; reflexivity.
Qed.

Lemma encode_transaction_input_actual (tx : Transaction) (txin : TransactionInput)
    (i : Z) :
  TransactionOps.encode_transaction_input tx txin PNone
  = input_with_script txin (actual_script i txin).
Proof.
  unfold TransactionOps.encode_transaction_input, input_with_script, actual_script, join.
  destruct (encode_int (prev_transaction_idx txin) 4 little) as [idx|e];
    cbn [bind]; [|reflexivity].
  destruct (script_sig txin) as [sc|]; [|reflexivity].
  destruct (ScriptOps.encode sc) as [scb|e]; cbn [bind]; [|reflexivity].
  destruct (encode_int (sequence txin) 4 little); cbn [bind List.concat];
    [rewrite app_nil_r|]; reflexivity.
Qed.

(** [Transaction.encode] is the chunks up to the locktime followed by the
    trailer that the test of [sig_index] against -1 selects. *)
Lemma encode_unfold (tx : Transaction) (ins : list TransactionInput)
    (outs : list TransactionOutput) (sig_index : Z) :
  TransactionOps.encode tx ins outs sig_index =
  (out <- TransactionOps.encode_chunks tx ins outs sig_index ;;
   Ok (join out ++ (if sig_index =? -1 then [] else SIGHASH_ALL_trailer))).
Proof.
  unfold TransactionOps.encode.
  destruct (TransactionOps.encode_chunks tx ins outs sig_index) as [out|e];
    cbn [bind]; [|reflexivity].
  destruct (sig_index =? -1); cbn [negb];
    [|change (encode_int 1 4 little) with (Ok SIGHASH_ALL_trailer)];
    cbn [bind]; unfold join;
    rewrite concat_app; cbn [List.concat]; rewrite ?app_nil_r; reflexivity.
Qed.

Lemma encode_serialize_with (tx : Transaction) (ins : list TransactionInput)
    (outs : list TransactionOutput) (sig_index : Z)
    (script_for : Z -> TransactionInput -> res bytes) :
  (forall i txin,
     TransactionOps.encode_transaction_input tx txin
       (if sig_index =? -1 then PNone else PBool (sig_index =? i))
     = input_with_script txin (script_for i txin)) ->
  TransactionOps.encode tx ins outs sig_index =
  serialize_with tx script_for
    (if sig_index =? -1 then [] else SIGHASH_ALL_trailer) ins outs.
Proof.
  intros Hin. rewrite encode_unfold.
  unfold TransactionOps.encode_chunks, serialize_with.
  destruct (encode_int (version tx) 4 little) as [v|e]; cbn [bind]; [|reflexivity].
  destruct (encode_varint (Z.of_nat (List.length ins))) as [n_in|e];
    cbn [bind]; [|reflexivity].
  assert (Hins :
    (if sig_index =? -1
     then mapM (fun txin => TransactionOps.encode_transaction_input tx txin PNone) ins
     else mapM (fun it => TransactionOps.encode_transaction_input tx (snd it)
                            (PBool (sig_index =? fst it)))
               (TransactionOps.enumerate_from 0 ins))
    = mapM (fun it => input_with_script (snd it) (script_for (fst it) (snd it)))
           (TransactionOps.enumerate_from 0 ins)).
  { destruct (sig_index =? -1).
    - rewrite <- (mapM_snd_enumerate _ 0 ins).
      apply mapM_ext. intros it _. apply Hin.
    - apply mapM_ext. intros it _. apply Hin. }
  rewrite Hins. clear Hins.
  destruct (mapM (fun it => input_with_script (snd it) (script_for (fst it) (snd it)))
                 (TransactionOps.enumerate_from 0 ins)) as [ins_b|e];
    cbn [bind]; [|reflexivity].
  destruct (encode_varint (Z.of_nat (List.length outs))) as [n_out|e];
    cbn [bind]; [|reflexivity].
  destruct (mapM (TransactionOps.encode_transaction_output tx) outs) as [outs_b|e];
    cbn [bind]; [|reflexivity].
  destruct (encode_int (locktime tx) 4 little) as [lt|e]; cbn [bind]; [|reflexivity].
  unfold join. f_equal.
  cbn [app List.concat]. rewrite !concat_app. cbn [List.concat].
  rewrite ?concat_app. cbn [List.concat].
  rewrite ?app_nil_r, <- ?app_assoc. reflexivity.
Qed.

(** C4: for every sig_index j >= 0, [Transaction.encode] serializes input
    j with the encoding of its previous output's locking script and every
    other input with the encoding of the empty script (the single byte 0),
    followed as ever by the outputs, the locktime and the sighash trailer;
    with sig_index = -1 every input is serialized with the encoding of its
    actual unlocking script and there is no trailer. *)
Theorem C4_encode_script_substitution (tx : Transaction)
    (ins : list TransactionInput) (outs : list TransactionOutput) :
  (forall j, 0 <= j ->
     TransactionOps.encode tx ins outs j
     = serialize_with tx (sighash_script j) SIGHASH_ALL_trailer ins outs)
  /\ TransactionOps.encode tx ins outs (-1)
     = serialize_with tx actual_script [] ins outs
  /\ ScriptOps.encode (mkScript []) = Ok [x00].
Proof.
  split; [|split].
  - intros j Hj.
    rewrite (encode_serialize_with tx ins outs j (sighash_script j)).
    + destruct (Z.eqb_spec j (-1)); [lia|reflexivity].
    + intros i txin. destruct (Z.eqb_spec j (-1)); [lia|].
      apply encode_transaction_input_override.
  - rewrite (encode_serialize_with tx ins outs (-1) actual_script); [reflexivity|].
    intros i txin. cbn [Z.eqb]. apply encode_transaction_input_actual.
  - exact empty_script_encoding.
Qed.

Lemma C4_encode_script_substitution_witness :
  let tx := mkTransaction 1 0 in
  let txin0 := TransactionOps.create_transaction_input
                 tx [x01; x02] 0 (PBytes [xaa; xbb]) None 0xffffffff in
  let txin1 := TransactionOps.create_transaction_input
                 tx [x03; x04] 1 (PBytes [xcc; xdd]) None 0xffffffff in
  TransactionOps.encode tx [txin0; txin1] [] 1
  = serialize_with tx (sighash_script 1) SIGHASH_ALL_trailer [txin0; txin1] [].
Proof.
  intros tx txin0 txin1.
  destruct (C4_encode_script_substitution tx [txin0; txin1] []) as [H _].
  apply H. lia.
Defined.

Lemma encode_chunks_ends_with_locktime (tx : Transaction)
    (ins : list TransactionInput) (outs : list TransactionOutput)
    (sig_index : Z) (out : list bytes) :
  TransactionOps.encode_chunks tx ins outs sig_index = Ok out ->
  exists front lt, out = front ++ [lt]
                   /\ encode_int (locktime tx) 4 little = Ok lt
                   /\ List.length lt = 4%nat.
Proof.
  unfold TransactionOps.encode_chunks.
  destruct (encode_int (version tx) 4 little) as [v|e]; cbn [bind]; [|discriminate].
  destruct (encode_varint (Z.of_nat (List.length ins))) as [n_in|e];
    cbn [bind]; [|discriminate].
  match goal with |- context [bind ?m _] => destruct m as [ins_b|e] end;
    cbn [bind]; [|discriminate].
  destruct (encode_varint (Z.of_nat (List.length outs))) as [n_out|e];
    cbn [bind]; [|discriminate].
  destruct (mapM (TransactionOps.encode_transaction_output tx) outs) as [outs_b|e];
    cbn [bind]; [|discriminate].
  destruct (encode_int (locktime tx) 4 little) as [lt|e] eqn:Hlt;
    cbn [bind]; [|discriminate].
  intros [= <-].
  exists ([v] ++ [n_in] ++ ins_b ++ [n_out] ++ outs_b), lt.
  split; [rewrite <- !app_assoc; reflexivity|]. split; [reflexivity|].
  unfold encode_int in Hlt.
  destruct ((locktime tx <? 0) || (256 ^ Z.of_nat 4 <=? locktime tx)); [discriminate|].
  injection Hlt as <-. reflexivity.
Qed.

(** C5, as stated, fails at sig_index = -2: the encoding of the empty
    transaction ends in the trailer although sig_index >= 0 does not hold. *)
Lemma C5_trailer_only_when_nonnegative_counterexample :
  TransactionOps.encode (mkTransaction 1 0) [] [] (-2)
    = Ok ([x01; x00; x00; x00] ++ [x00] ++ [x00] ++ [x00; x00; x00; x00]
          ++ SIGHASH_ALL_trailer)
  /\ appends_sighash_type (mkTransaction 1 0) [] [] (-2)
  /\ ~ (0 <= -2)
  /\ ~ (forall tx ins outs sig_index,
          appends_sighash_type tx ins outs sig_index -> 0 <= sig_index).
Proof.
  assert (Ha : appends_sighash_type (mkTransaction 1 0) [] [] (-2)).
  { eexists. split; reflexivity. }
  split; [reflexivity|]. split; [exact Ha|]. split; [lia|].
  intros H. apply H in Ha. lia.
Qed.

(** C5, amended: for every input and output list and every integer
    sig_index, [Transaction.encode] returns what it has collected up to
    the 4-byte locktime followed by the 4-byte little-endian constant 1
    whenever sig_index is not -1 (so for every sig_index >= 0, and also
    for sig_index <= -2), and followed by nothing when sig_index is -1;
    it raises whatever the part up to the locktime raises. *)
Theorem C5_trailer_unless_minus_one (tx : Transaction)
    (ins : list TransactionInput) (outs : list TransactionOutput) (sig_index : Z) :
  TransactionOps.encode tx ins outs sig_index =
    (out <- TransactionOps.encode_chunks tx ins outs sig_index ;;
     Ok (join out ++ (if sig_index =? -1 then [] else SIGHASH_ALL_trailer)))
  /\ (forall out,
        TransactionOps.encode_chunks tx ins outs sig_index = Ok out ->
        (exists front lt, out = front ++ [lt]
                          /\ encode_int (locktime tx) 4 little = Ok lt
                          /\ List.length lt = 4%nat)
        /\ (sig_index <> -1 -> appends_sighash_type tx ins outs sig_index)
        /\ (sig_index = -1 -> omits_sighash_type tx ins outs sig_index))
  /\ encode_int 1 4 little = Ok SIGHASH_ALL_trailer.
Proof.
  split; [apply encode_unfold|]. split; [|reflexivity].
  intros out Hout. split; [|split].
  - exact (encode_chunks_ends_with_locktime tx ins outs sig_index out Hout).
  - intros Hne. exists out. split; [exact Hout|].
    rewrite encode_unfold, Hout. cbn [bind].
    destruct (Z.eqb_spec sig_index (-1)); [contradiction|reflexivity].
  - intros ->. exists out. split; [exact Hout|].
    rewrite encode_unfold, Hout. cbn [bind Z.eqb]. rewrite app_nil_r. reflexivity.
Qed.

Lemma C5_trailer_unless_minus_one_witness :
  appends_sighash_type (mkTransaction 1 0) [] [] 0
  /\ appends_sighash_type (mkTransaction 1 0) [] [] (-2)
  /\ omits_sighash_type (mkTransaction 1 0) [] [] (-1).
Proof.
  split; [|split].
  - destruct (C5_trailer_unless_minus_one (mkTransaction 1 0) [] [] 0) as (_ & H & _).
    destruct (H _ eq_refl) as (_ & Ha & _). apply Ha. lia.
  - destruct (C5_trailer_unless_minus_one (mkTransaction 1 0) [] [] (-2)) as (_ & H & _).
    destruct (H _ eq_refl) as (_ & Ha & _). apply Ha. lia.
  - destruct (C5_trailer_unless_minus_one (mkTransaction 1 0) [] [] (-1)) as (_ & H & _).
    destruct (H _ eq_refl) as (_ & _ & Ho). apply Ho. reflexivity.
Defined.

(** ** The point at infinity *)

(** C7, as stated, fails at a point object with null x and y that is not
    the object [INF]: it is not recognized by [== INF], and adding it to
    the generator of secp256k1 on either side raises [TypeError]. *)
Lemma C7_null_point_not_identity_counterexample :
  let O := Pt None None None in
  Point_x O = None /\ Point_y O = None
  /\ is_INF O = false
  /\ PointOps.add secp256k1_G O = Raise TypeError
  /\ PointOps.add O secp256k1_G = Raise TypeError
  /\ PointOps.add secp256k1_G O <> Ok secp256k1_G.
Proof.
  cbv zeta. repeat split; discriminate.
Qed.

(** C7, amended: the object [INF], whose x and y are null, acts as the
    additive identity: P + INF returns P and INF + P returns P for every
    point P, whatever its curve, and INF compares equal to INF; no other
    point object, null coordinates or not, compares equal to INF. *)
Theorem C7_INF_is_additive_identity (P : Point) :
  PointOps.add P INF = Ok P
  /\ PointOps.add INF P = Ok P
  /\ is_INF INF = true
  /\ Point_x INF = None /\ Point_y INF = None
  /\ (forall c x y, is_INF (Pt c x y) = false).
Proof.
  repeat split. destruct P; reflexivity.
Qed.

(** ** Commutativity of point addition *)

Lemma inv_ok (n p : Z) : p <> 0 -> exists m, inv n p = Ok m.
Proof.
  intros Hp. unfold inv. pose proof (inv_loop_enough n p) as H.
  destruct (inv_loop (inv_fuel p) n p 1 0 0 1) as [[[g x] y]|]; [|contradiction].
  destruct (Z.eqb_spec p 0); [contradiction|]. eexists. reflexivity.
Qed.

Lemma py_mod_ok (x p : Z) : p <> 0 -> py_mod x p = Ok (x mod p).
Proof.
  intros Hp. unfold py_mod. destruct (Z.eqb_spec p 0); [contradiction|reflexivity].
Qed.

Lemma mod_eq_of_divide (p x y : Z) : p <> 0 -> (p | x - y) -> x mod p = y mod p.
Proof.
  intros Hp [k Hk]. replace x with (y + k * p) by lia.
  apply Z.mod_add. exact Hp.
Qed.

Lemma divide_of_mod_1 (p x i : Z) : 2 <= p -> (x * i) mod p = 1 -> (p | x * i - 1).
Proof.
  intros Hp H. exists (x * i / p).
  pose proof (Z.div_mod (x * i) p ltac:(lia)). lia.
Qed.

Lemma distinct_coordinates_coprime (p x1 x2 : Z) :
  Z.prime p -> 0 <= x1 < p -> 0 <= x2 < p -> x1 <> x2 -> Z.gcd (x1 - x2) p = 1.
Proof.
  intros Hp H1 H2 Hne.
  rewrite Z.gcd_comm. apply Z.coprime_prime_l; [exact Hp|].
  intros [k Hk]. assert (k = 0) by nia. lia.
Qed.

(** The two chord slopes, computed from either end, agree modulo [p], and
    so do the coordinates they give. *)
Lemma chord_symmetric (p x1 y1 x2 y2 i1 i2 : Z) :
  Z.prime p -> Z.gcd (x1 - x2) p = 1 ->
  ((x1 - x2) * i1) mod p = 1 -> ((x2 - x1) * i2) mod p = 1 ->
  let m1 := (y1 - y2) * i1 in
  let m2 := (y2 - y1) * i2 in
  let rx1 := (m1 ^ 2 - x1 - x2) mod p in
  let rx2 := (m2 ^ 2 - x2 - x1) mod p in
  rx1 = rx2
  /\ (- (m1 * (rx1 - x1) + y1)) mod p = (- (m2 * (rx2 - x2) + y2)) mod p.
Proof.
  intros Hp Hg H1 H2 m1 m2 rx1 rx2.
  pose proof (Z.prime_ge_2 p Hp) as Hp2.
  apply divide_of_mod_1 in H1; [|exact Hp2].
  apply divide_of_mod_1 in H2; [|exact Hp2].
  destruct H1 as [k1 H1]. destruct H2 as [k2 H2].
  assert (E1 : (x1 - x2) * i1 = 1 + k1 * p) by lia.
  assert (E2 : (x2 - x1) * i2 = 1 + k2 * p) by lia.
  assert (Hm1 : m1 * (x1 - x2) = (y1 - y2) * (1 + k1 * p)).
  { unfold m1. rewrite <- E1. ring. }
  assert (Hm : (p | m1 - m2)).
  { apply (Z.gauss p (x1 - x2) (m1 - m2)).
    - exists ((y1 - y2) * (k1 - k2)). unfold m1, m2.
      replace ((x1 - x2) * ((y1 - y2) * i1 - (y2 - y1) * i2))
        with ((y1 - y2) * ((x1 - x2) * i1) - (y1 - y2) * ((x2 - x1) * i2)) by ring.
      rewrite E1, E2. ring.
    - rewrite Z.gcd_comm. exact Hg. }
  destruct Hm as [k Hm].
  clearbody m1 m2.
  assert (Hrx : rx1 = rx2).
  { unfold rx1, rx2. apply mod_eq_of_divide; [lia|].
    exists (k * (m1 + m2)).
    replace (m1 ^ 2 - x1 - x2 - (m2 ^ 2 - x2 - x1)) with ((m1 - m2) * (m1 + m2)) by ring.
    rewrite Hm. ring. }
  split; [exact Hrx|].
  rewrite <- Hrx. clearbody rx1. apply mod_eq_of_divide; [lia|].
  exists (k * (x2 - rx1) + (y1 - y2) * k1).
  replace (- (m1 * (rx1 - x1) + y1) - - (m2 * (rx1 - x2) + y2))
    with ((m1 - m2) * (x2 - rx1) + m1 * (x1 - x2) - (y1 - y2)) by ring.
  rewrite Hm, Hm1. ring.
Qed.

(** C8: for any two points P and Q of one curve, each the identity or a
    pair of field elements satisfying the curve equation, both P + Q and
    Q + P return, and they return the same point (both the identity, or
    points with the same curve and coordinates), whichever branch of the
    addition applies: identity operands, inverse pair, doubling, chord.
    As in the data model, the modulus of the curve is prime and a field
    element is an integer in [0, p). *)
Theorem C8_add_commutative (c : Curve) (P Q : Point) :
  Z.prime (p c) -> on_curve c P -> on_curve c Q ->
  exists R, PointOps.add P Q = Ok R /\ PointOps.add Q P = Ok R.
Proof.
  intros Hp HP HQ.
  pose proof (Z.prime_ge_2 _ Hp) as Hp2.
  destruct P as [|cP [x1|] [y1|]]; try contradiction;
    destruct Q as [|cQ [x2|] [y2|]]; try contradiction;
    try (eexists; split; reflexivity).
  destruct HP as (-> & Hx1 & Hy1 & _). destruct HQ as (-> & Hx2 & Hy2 & _).
  unfold PointOps.add.
  cbn [is_INF Point_x Point_y Point_curve opt_eqb curve_of as_int bind].
  rewrite (Z.eqb_sym x2 x1), (Z.eqb_sym y2 y1).
  destruct (Z.eqb_spec x1 x2) as [Hx|Hx].
  - destruct (Z.eqb_spec y1 y2) as [Hy|Hy]; cbn [negb andb].
    + subst x2 y2.
      destruct (inv_ok (2 * y1) (p c) ltac:(lia)) as (i & ->).
      cbn [bind]. repeat (rewrite py_mod_ok by lia; cbn [bind]).
      eexists. split; reflexivity.
    + eexists. split; reflexivity.
  - cbn [andb].
    destruct (inv_spec (x1 - x2) (p c) Hp2
                (distinct_coordinates_coprime _ _ _ Hp Hx1 Hx2 Hx))
      as (i1 & -> & _ & Hi1).
    destruct (inv_spec (x2 - x1) (p c) Hp2
                (distinct_coordinates_coprime _ _ _ Hp Hx2 Hx1 (not_eq_sym Hx)))
      as (i2 & -> & _ & Hi2).
    cbn [bind]. repeat (rewrite py_mod_ok by lia; cbn [bind]).
    destruct (chord_symmetric (p c) x1 y1 x2 y2 i1 i2 Hp
                (distinct_coordinates_coprime _ _ _ Hp Hx1 Hx2 Hx) Hi1 Hi2)
      as [Hrx Hry].
    cbv zeta in Hrx, Hry.
    eexists. split; [reflexivity|].
    rewrite <- Hry, <- Hrx. reflexivity.
Qed.

Lemma prime_17 : Z.prime 17.
Proof.
  split; [lia|].
  intros k Hk [q Hq].
  assert (Hc : k = 2 \/ k = 3 \/ k = 4 \/ k = 5 \/ k = 6 \/ k = 7 \/ k = 8
               \/ k = 9 \/ k = 10 \/ k = 11 \/ k = 12 \/ k = 13 \/ k = 14
               \/ k = 15 \/ k = 16) by lia.
  repeat (destruct Hc as [->|Hc]; [lia|]). lia.
Qed.

Lemma C8_add_commutative_witness :
  let c := mkCurve 17 0 7 in
  exists R, PointOps.add (Pt (Some c) (Some 1) (Some 5)) (Pt (Some c) (Some 15) (Some 13)) = Ok R
            /\ PointOps.add (Pt (Some c) (Some 15) (Some 13)) (Pt (Some c) (Some 1) (Some 5)) = Ok R.
Proof.
  intros c.
  apply (C8_add_commutative c (Pt (Some c) (Some 1) (Some 5))
                              (Pt (Some c) (Some 15) (Some 13))).
  - exact prime_17.
  - cbn. repeat split; lia.
  - cbn. repeat split; lia.
Defined.

(** ** Signing *)

(** The SHA-256 model on the standard test vectors: the empty message,
    "abc", and the double hash of the empty message. *)
Example sha256_empty :
  int_from_bytes_big (SHA256.digest [])
  = 0xe3b0c44298fc1c149afbf4c8996fb92427ae41e4649b934ca495991b7852b855.
Proof. vm_compute. reflexivity. Qed.

Example sha256_abc :
  int_from_bytes_big (SHA256.digest [x61; x62; x63])
  = 0xba7816bf8f01cfea414140de5dae2223b00361a396177a9cb410ff61f20015ad.
Proof. vm_compute. reflexivity. Qed.

Example sha256_double_empty :
  int_from_bytes_big (SHA256.digest (SHA256.digest []))
  = 0x5df6e0e2761359d30a8275058e299fcc0381534545f55cf43e41983f5d4c9456.
Proof. vm_compute. reflexivity. Qed.

Lemma bind_not_out_of_fuel {A B : Type} (m : res A) (k : A -> res B) :
  m <> Raise FuelExhausted -> (forall a, k a <> Raise FuelExhausted) ->
  bind m k <> Raise FuelExhausted.
Proof.
  intros Hm Hk. destruct m as [a|e]; cbn [bind]; [apply Hk|].
  intros [= ->]. apply Hm. reflexivity.
Qed.

Lemma as_int_not_out_of_fuel (v : option Z) : as_int v <> Raise FuelExhausted.
Proof. destruct v; discriminate. Qed.

Lemma curve_of_not_out_of_fuel (P : Point) : curve_of P <> Raise FuelExhausted.
Proof. unfold curve_of. destruct (Point_curve P); discriminate. Qed.

Lemma py_mod_not_out_of_fuel (x m : Z) : py_mod x m <> Raise FuelExhausted.
Proof. unfold py_mod. destruct (m =? 0); discriminate. Qed.

Create HintDb fuel.

#[local] Hint Resolve as_int_not_out_of_fuel curve_of_not_out_of_fuel
  py_mod_not_out_of_fuel inv_never_out_of_fuel : fuel.

Ltac fuel_binds :=
  repeat (apply bind_not_out_of_fuel; [auto with fuel | intros ?]);
  try discriminate.

Lemma add_never_out_of_fuel (P Q : Point) : PointOps.add P Q <> Raise FuelExhausted.
Proof.
  unfold PointOps.add.
  destruct (is_INF P); [discriminate|].
  destruct (is_INF Q); [discriminate|].
  destruct (opt_eqb (Point_x P) (Point_x Q) && negb (opt_eqb (Point_y P) (Point_y Q)));
    [discriminate|].
  apply bind_not_out_of_fuel.
  - destruct (opt_eqb (Point_x P) (Point_x Q)); fuel_binds.
  - intros m. fuel_binds.
Qed.

(** The bit length of [k] bounds the iterations of the loop of
    [__rmul__]. *)
Lemma rmul_loop_enough (fuel : nat) (k : Z) (result append : Point) :
  0 <= k < 2 ^ Z.of_nat fuel ->
  PointOps.rmul_loop fuel k result append <> Raise FuelExhausted.
Proof.
  revert k result append.
  induction fuel as [|fuel IH]; intros k result append Hk.
  - cbn [PointOps.rmul_loop]. change (2 ^ Z.of_nat 0) with 1 in Hk.
    destruct (Z.eqb_spec k 0); [discriminate|lia].
  - cbn [PointOps.rmul_loop]. destruct (Z.eqb_spec k 0) as [Hz|Hz]; [discriminate|].
    apply bind_not_out_of_fuel.
    + destruct (Z.land k 1 =? 0); [discriminate|apply add_never_out_of_fuel].
    + intros result'. apply bind_not_out_of_fuel; [apply add_never_out_of_fuel|].
      intros append'. apply IH.
      rewrite Z.shiftr_div_pow2 by lia. change (2 ^ 1) with 2.
      rewrite Nat2Z.inj_succ, Z.pow_succ_r in Hk by lia.
      split; [apply Z.div_pos; lia|].
      apply Z.div_lt_upper_bound; lia.
Qed.

Lemma rmul_never_out_of_fuel (k : Z) (P : Point) :
  PointOps.rmul k P <> Raise FuelExhausted.
Proof.
  unfold PointOps.rmul. destruct (Z.ltb_spec k 0) as [Hk|Hk]; [discriminate|].
  apply rmul_loop_enough.
  rewrite Z2Nat.id by (pose proof (Z.log2_nonneg k); lia).
  destruct (Z.eq_dec k 0) as [->|Hz]; [cbn; lia|].
  pose proof (Z.log2_spec k ltac:(lia)). lia.
Qed.

(** With a group order that true division halves exactly, the returned
    [s] is at most half the order. *)
Lemma sign_low_s_when_exact (secret_key : Z) (message : bytes)
    (generator : Generator) (sk : Z) (sig : Signature) :
  round_binary64 (n generator) = n generator ->
  sign secret_key message generator sk = Ok sig ->
  2 * s sig <= n generator.
Proof.
  intros Hexact. unfold sign.
  destruct (Z.leb_spec (n generator) 1) as [Hn|Hn]; [discriminate|].
  destruct (PointOps.rmul sk (G generator)) as [P|e]; cbn [bind]; [|discriminate].
  destruct (inv sk (n generator)) as [i|e]; cbn [bind]; [|discriminate].
  destruct (as_int (Point_x P)) as [rz|e]; cbn [bind]; [|discriminate].
  rewrite py_mod_ok by lia. cbn [bind].
  unfold truediv_2. rewrite Hexact.
  destruct (2 ^ 1025 <=? Z.abs (n generator)); cbn [bind]; [discriminate|].
  intros [= <-]. cbn [s].
  pose proof (Z.mod_pos_bound (i * (int_from_bytes_big
                 (SHA256.digest (SHA256.digest message)) + secret_key * rz))
                (n generator) ltac:(lia)) as Hb.
  unfold int_gt_float, Qle_bool. cbn [Qnum Qden inject_Z].
  destruct (Z.leb_spec
              ((i * (int_from_bytes_big (SHA256.digest (SHA256.digest message))
                     + secret_key * rz)) mod n generator * Z.pos 2)
              (n generator * 1)); cbn [negb]; lia.
Qed.

(** C3 fails on the code: with the secp256k1 generator, the empty message,
    the ephemeral scalar 1 and the secret key above, all in range, [sign]
    returns s = 2^255, which is more than half the group order.  The test
    [s > n / 2] compares against the float nearest to n/2, which for this
    order is 2^255, so this s is not replaced by n - s. *)
Theorem C3_sign_returns_high_s :
  1 <= high_s_secret_key < n secp256k1_gen
  /\ 1 <= 1 < n secp256k1_gen
  /\ truediv_2 (n secp256k1_gen) = Ok (Qmake (2 ^ 256) 2)
  /\ sign high_s_secret_key [] secp256k1_gen 1
     = Ok (mkSignature
             0x79BE667EF9DCBBAC55A06295CE870B07029BFCDB2DCE28D959F2815B16F81798
             (2 ^ 255))
  /\ n secp256k1_gen < 2 * 2 ^ 255.
Proof.
  repeat split; vm_compute; congruence.
Qed.

(* ================================================================== *)
(** * Further properties of the module *)

(** ** Fixed-width and variable-length integers, continued *)

(** X1: [encode_int] raises [OverflowError] exactly on a negative value
    and on one of 256^nbytes or more; on every other value it returns
    nbytes bytes that read back, in the byte order asked for, as the
    value. *)
Theorem encode_int_round_trip (i : Z) (nbytes : nat) (encoding : byteorder) :
  (encode_int i nbytes encoding = Raise OverflowError
     <-> i < 0 \/ 256 ^ Z.of_nat nbytes <= i)
  /\ (0 <= i < 256 ^ Z.of_nat nbytes ->
      exists v, encode_int i nbytes encoding = Ok v
                /\ List.length v = nbytes
                /\ match encoding with
                   | little => int_from_bytes_little v
                   | big => int_from_bytes_big v
                   end = i).
Proof.
  split.
  - unfold encode_int.
    destruct (Z.ltb_spec i 0); destruct (Z.leb_spec (256 ^ Z.of_nat nbytes) i);
      cbn [orb]; split; intros H'; try reflexivity; try lia;
      destruct encoding; discriminate.
  - intros Hi. destruct encoding.
    + apply encode_int_little_ok. exact Hi.
    + apply encode_int_big_ok. exact Hi.
Qed.

Lemma encode_int_round_trip_witness :
  exists v, encode_int 0x01020304 4 big = Ok v
            /\ List.length v = 4%nat /\ int_from_bytes_big v = 0x01020304.
Proof.
  destruct (encode_int_round_trip 0x01020304 4 big) as [_ H].
  apply H. cbn. lia.
Defined.

Lemma byte_of_Z_inj (i j : Z) :
  0 <= i < 256 -> 0 <= j < 256 -> byte_of_Z i = byte_of_Z j -> i = j.
Proof.
  intros Hi Hj H. apply (f_equal Z_of_byte) in H.
  rewrite !Z_of_byte_of_Z, !Z.mod_small in H by lia. exact H.
Qed.

(** The shape of every result of [encode_varint]. *)
Lemma encode_varint_shape (i : Z) (v : bytes) :
  encode_varint i = Ok v ->
  (0 <= i < 0xfd /\ v = [byte_of_Z i])
  \/ (0xfd <= i < 2 ^ 16 /\ v = xfd :: le_digits 2 i)
  \/ (2 ^ 16 <= i < 2 ^ 32 /\ v = xfe :: le_digits 4 i)
  \/ (2 ^ 32 <= i < 2 ^ 64 /\ v = xff :: le_digits 8 i).
Proof.
  unfold encode_varint, bytes_of_ints, encode_int. cbn [mapM].
  destruct (Z.ltb_spec i 0xfd).
  - destruct (Z.leb_spec 0 i); cbn [andb]; [|discriminate].
    destruct (Z.ltb_spec i 256); [|lia]. cbn [bind].
    intros [= <-]. left. split; [lia|reflexivity].
  - destruct (Z.ltb_spec i 0x10000).
    { destruct (Z.ltb_spec i 0); [lia|].
      destruct (Z.leb_spec (256 ^ Z.of_nat 2) i);
        [change (256 ^ Z.of_nat 2) with 65536 in *; lia|].
      cbn [orb bind]. intros [= <-]. right; left. split; [lia|reflexivity]. }
    destruct (Z.ltb_spec i 0x100000000).
    { destruct (Z.ltb_spec i 0); [lia|].
      destruct (Z.leb_spec (256 ^ Z.of_nat 4) i);
        [change (256 ^ Z.of_nat 4) with 4294967296 in *; lia|].
      cbn [orb bind]. intros [= <-]. right; right; left.
      split; [lia|reflexivity]. }
    destruct (Z.ltb_spec i 0x10000000000000000); [|discriminate].
    destruct (Z.ltb_spec i 0); [lia|].
    destruct (Z.leb_spec (256 ^ Z.of_nat 8) i);
      [change (256 ^ Z.of_nat 8) with 18446744073709551616 in *; lia|].
    cbn [orb bind]. intros [= <-]. right; right; right.
    split; [lia|reflexivity].
Qed.

Lemma app_same_length_inj {A : Type} (l1 l2 u w : list A) :
  List.length l1 = List.length l2 -> l1 ++ u = l2 ++ w -> l1 = l2 /\ u = w.
Proof.
  revert l2. induction l1 as [|x l1 IH]; intros [|y l2] Hl H;
    try discriminate; cbn [app] in *.
  - split; [reflexivity|exact H].
  - injection H as -> H. injection Hl as Hl.
    destruct (IH l2 Hl H) as [-> ->]. split; reflexivity.
Qed.

Lemma le_digits_app_inj (k : nat) (i j : Z) (u w : bytes) :
  0 <= i < 256 ^ Z.of_nat k -> 0 <= j < 256 ^ Z.of_nat k ->
  le_digits k i ++ u = le_digits k j ++ w -> i = j /\ u = w.
Proof.
  intros Hi Hj H.
  assert (Hl : List.length (le_digits k i) = List.length (le_digits k j))
    by (rewrite !le_digits_length; reflexivity).
  destruct (app_same_length_inj _ _ _ _ Hl H) as [Hd Hu].
  split; [|exact Hu].
  apply (f_equal int_from_bytes_little) in Hd.
  rewrite !int_from_le_digits, !Z.mod_small in Hd by lia. exact Hd.
Qed.

(** X2: the encodings of [encode_varint] are prefix-free: when the
    encodings of i and j, each followed by any bytes, are the same string,
    then i = j and the bytes that follow are the same.  So a varint can be
    read back from the front of a stream, and [encode_varint] is
    injective. *)
Theorem encode_varint_prefix_free (i j : Z) (vi vj resti restj : bytes) :
  encode_varint i = Ok vi -> encode_varint j = Ok vj ->
  vi ++ resti = vj ++ restj ->
  i = j /\ resti = restj.
Proof.
  intros Hi Hj H.
  apply encode_varint_shape in Hi. apply encode_varint_shape in Hj.
  assert (Htag : forall k, 0 <= k < 0xfd ->
            byte_of_Z k <> xfd /\ byte_of_Z k <> xfe /\ byte_of_Z k <> xff).
  { intros k Hk. repeat split; intros Hb;
      apply (f_equal Z_of_byte) in Hb;
      rewrite Z_of_byte_of_Z, Z.mod_small in Hb by lia;
      vm_compute in Hb; lia. }
  destruct Hi as [[Ri ->]|[[Ri ->]|[[Ri ->]|[Ri ->]]]];
    destruct Hj as [[Rj ->]|[[Rj ->]|[[Rj ->]|[Rj ->]]]];
    cbn [app] in H;
    pose proof (f_equal (@hd byte x00) H) as Hhd;
    pose proof (f_equal (@tl byte) H) as Htl;
    cbn [hd tl] in Hhd, Htl;
    try discriminate;
    try (exfalso; destruct (Htag i Ri) as (? & ? & ?); congruence);
    try (exfalso; destruct (Htag j Rj) as (? & ? & ?); congruence).
  - split; [|exact Htl]. apply byte_of_Z_inj; [lia|lia|exact Hhd].
  - apply (le_digits_app_inj 2);
      [change (256 ^ Z.of_nat 2) with 65536; lia ..|exact Htl].
  - apply (le_digits_app_inj 4);
      [change (256 ^ Z.of_nat 4) with 4294967296; lia ..|exact Htl].
  - apply (le_digits_app_inj 8);
      [change (256 ^ Z.of_nat 8) with 18446744073709551616; lia ..|exact Htl].
Qed.

Lemma encode_varint_prefix_free_witness :
  encode_varint 256 = Ok [xfd; x00; x01]
  /\ (256 = 256 /\ [x07] = [x07]).
Proof.
  split; [reflexivity|].
  apply (encode_varint_prefix_free 256 256 [xfd; x00; x01] [xfd; x00; x01]
           [x07] [x07]);
    reflexivity.
Defined.

(** X3: a negative argument makes [encode_varint] raise the [ValueError]
    of [bytes([i])], not the one that names the integer. *)
Theorem encode_varint_negative (i : Z) :
  i < 0 ->
  encode_varint i = Raise (ValueError "bytes must be in range(0, 256)").
Proof.
  intros Hi. unfold encode_varint, bytes_of_ints. cbn [mapM].
  destruct (Z.ltb_spec i 0xfd); [|lia].
  destruct (Z.leb_spec 0 i); [lia|]. reflexivity.
Qed.

Lemma encode_varint_negative_witness :
  encode_varint (-1) = Raise (ValueError "bytes must be in range(0, 256)").
Proof. apply (encode_varint_negative (-1)). lia. Defined.

(** ** The extended Euclidean algorithm, continued *)

(** X4: for every n and every modulus p >= 1, coprime or not, [inv]
    returns an m in [0, p) with n * m congruent to gcd(n, p) modulo p; on
    the modulus 0 it raises [ZeroDivisionError]. *)
Theorem inv_returns_gcd_multiplier (n p : Z) :
  (1 <= p ->
   exists m, inv n p = Ok m /\ 0 <= m < p
             /\ (n * m) mod p = Z.gcd n p mod p)
  /\ inv n 0 = Raise ZeroDivisionError.
Proof.
  split; [|reflexivity].
  intros Hp. unfold inv.
  pose proof (inv_loop_enough n p) as Hsome.
  destruct (inv_loop (inv_fuel p) n p 1 0 0 1) as [[[g x] y]|] eqn:Hl; [|contradiction].
  pose proof (inv_loop_bezout n p (inv_fuel p) n p 1 0 0 1 g x y
                ltac:(ring) ltac:(ring) Hl) as Hb.
  pose proof (inv_loop_gcd (inv_fuel p) n p 1 0 0 1 g x y
                ltac:(lia) ltac:(lia) Hl) as Hgcd.
  destruct (Z.eqb_spec p 0) as [Hz|Hz]; [lia|].
  exists (x mod p). split; [reflexivity|]. split.
  - apply Z.mod_pos_bound. lia.
  - rewrite Z.mul_mod_idemp_r by exact Hz.
    rewrite <- Hgcd. replace (n * x) with (g + (- y) * p) by lia.
    apply Z.mod_add. exact Hz.
Qed.

Lemma inv_returns_gcd_multiplier_witness :
  exists m, inv 6 9 = Ok m /\ 0 <= m < 9 /\ (6 * m) mod 9 = Z.gcd 6 9 mod 9.
Proof.
  destruct (inv_returns_gcd_multiplier 6 9) as [H _]. apply H. lia.
Defined.

(** ** Point addition and scalar multiplication, continued *)

Lemma inv_zero (p : Z) : p <> 0 -> inv 0 p = Ok 0.
Proof.
  intros Hp. unfold inv, inv_fuel.
  pose proof (Z.log2_nonneg (Z.abs p)).
  replace (Z.to_nat (2 * Z.log2 (Z.abs p) + 4))
    with (S (S (Z.to_nat (2 * Z.log2 (Z.abs p) + 2)))) by lia.
  cbn [inv_loop].
  destruct (Z.eqb_spec p 0) as [Hz|Hz]; [contradiction|].
  rewrite Z.div_0_l by exact Hp.
  replace (0 - 0 * p) with 0 by ring. cbn [Z.eqb].
  destruct (Z.eqb_spec p 0); [contradiction|].
  replace (1 - 0 * 0) with 1 by ring. apply f_equal, Z.mod_0_l. exact Hp.
Qed.

Lemma add_integer_points (c : Curve) (P Q : Point) :
  p c <> 0 -> integer_point c P -> integer_point c Q ->
  exists R, PointOps.add P Q = Ok R /\ integer_point c R.
Proof.
  intros Hp HP HQ.
  destruct P as [|[cP|] [x1|] [y1|]]; try contradiction;
    [exists Q; split; [reflexivity|exact HQ]|].
  destruct Q as [|[cQ|] [x2|] [y2|]]; try contradiction;
    [eexists; split; [reflexivity|exact HP]|].
  cbn in HP, HQ. subst cP cQ.
  unfold PointOps.add.
  cbn [is_INF Point_x Point_y Point_curve opt_eqb curve_of as_int bind].
  destruct ((x1 =? x2) && negb (y1 =? y2)); [exists INF; split; exact I || reflexivity|].
  destruct (x1 =? x2).
  - destruct (inv_ok (2 * y1) (p c) Hp) as (i & ->). cbn [bind].
    repeat (rewrite py_mod_ok by exact Hp; cbn [bind]).
    eexists. split; [reflexivity|reflexivity].
  - destruct (inv_ok (x1 - x2) (p c) Hp) as (i & ->). cbn [bind].
    repeat (rewrite py_mod_ok by exact Hp; cbn [bind]).
    eexists. split; [reflexivity|reflexivity].
Qed.

(** X5: on integer points of one curve with a modulus other than 0,
    [__add__] never raises, and it returns the identity or again an
    integer point of that curve. *)
Theorem add_closed_on_integer_points (c : Curve) (P Q : Point) :
  p c <> 0 -> integer_point c P -> integer_point c Q ->
  exists R, PointOps.add P Q = Ok R /\ integer_point c R.
Proof. exact (add_integer_points c P Q). Qed.

Lemma add_closed_on_integer_points_witness :
  let c := mkCurve 17 0 7 in
  exists R, PointOps.add (Pt (Some c) (Some 1) (Some 5)) (Pt (Some c) (Some 1) (Some 5)) = Ok R
            /\ integer_point c R.
Proof.
  intros c.
  apply (add_closed_on_integer_points c); [cbn; lia|reflexivity|reflexivity].
Defined.

Lemma rmul_loop_closed (c : Curve) (fuel : nat) (k : Z) (result append : Point) :
  p c <> 0 -> 0 <= k < 2 ^ Z.of_nat fuel ->
  integer_point c result -> integer_point c append ->
  exists R, PointOps.rmul_loop fuel k result append = Ok R /\ integer_point c R.
Proof.
  intros Hp. revert k result append.
  induction fuel as [|fuel IH]; intros k result append Hk Hr Ha.
  - cbn [PointOps.rmul_loop]. change (2 ^ Z.of_nat 0) with 1 in Hk.
    destruct (Z.eqb_spec k 0); [|lia]. exists result. split; [reflexivity|exact Hr].
  - cbn [PointOps.rmul_loop]. destruct (Z.eqb_spec k 0) as [Hz|Hz].
    { exists result. split; [reflexivity|exact Hr]. }
    assert (Hres : exists r', (if Z.land k 1 =? 0 then Ok result
                               else PointOps.add result append) = Ok r'
                              /\ integer_point c r').
    { destruct (Z.land k 1 =? 0).
      - exists result. split; [reflexivity|exact Hr].
      - apply add_integer_points; assumption. }
    destruct Hres as (r' & -> & Hr'). cbn [bind].
    destruct (add_integer_points c append append Hp Ha Ha)
      as (a' & -> & Ha'). cbn [bind].
    apply IH; [|exact Hr'|exact Ha'].
    rewrite Z.shiftr_div_pow2 by lia. change (2 ^ 1) with 2.
    rewrite Nat2Z.inj_succ, Z.pow_succ_r in Hk by lia.
    split; [apply Z.div_pos; lia|apply Z.div_lt_upper_bound; lia].
Qed.

(** X6: [__rmul__] fails its assertion on a negative k, returns the
    identity for k = 0, and for every k >= 0 and every integer point of a
    curve with a modulus other than 0 it returns, without raising, the
    identity or an integer point of that curve. *)
Theorem rmul_closed_on_integer_points (c : Curve) (k : Z) (P : Point) :
  (k < 0 -> PointOps.rmul k P = Raise AssertionError)
  /\ PointOps.rmul 0 P = Ok INF
  /\ (0 <= k -> p c <> 0 -> integer_point c P ->
      exists R, PointOps.rmul k P = Ok R /\ integer_point c R).
Proof.
  split; [|split].
  - intros Hk. unfold PointOps.rmul. destruct (Z.ltb_spec k 0); [reflexivity|lia].
  - reflexivity.
  - intros Hk Hp HP. unfold PointOps.rmul.
    destruct (Z.ltb_spec k 0); [lia|].
    apply rmul_loop_closed; [exact Hp| |exact I|exact HP].
    rewrite Z2Nat.id by (pose proof (Z.log2_nonneg k); lia).
    destruct (Z.eq_dec k 0) as [->|Hz]; [cbn; lia|].
    pose proof (Z.log2_spec k ltac:(lia)). lia.
Qed.

Lemma rmul_closed_on_integer_points_witness :
  let c := mkCurve 17 0 7 in
  PointOps.rmul (-1) (Pt (Some c) (Some 1) (Some 5)) = Raise AssertionError
  /\ exists R, PointOps.rmul 5 (Pt (Some c) (Some 1) (Some 5)) = Ok R
               /\ integer_point c R.
Proof.
  intros c.
  destruct (rmul_closed_on_integer_points c (-1) (Pt (Some c) (Some 1) (Some 5)))
    as (Hneg & _).
  destruct (rmul_closed_on_integer_points c 5 (Pt (Some c) (Some 1) (Some 5)))
    as (_ & _ & Hpos).
  split; [apply Hneg; lia|apply Hpos; [lia|cbn; lia|reflexivity]].
Defined.

(** X7: the loop of [__rmul__] doubles its addend once more than the
    result needs: 1 * P is P when P + P can be computed, and raises what
    P + P raises otherwise. *)
Theorem rmul_one_needs_doubling (P : Point) :
  PointOps.rmul 1 P = (_ <- PointOps.add P P ;; Ok P)
  /\ forall x y, PointOps.rmul 1 (Pt None (Some x) (Some y)) = Raise AttributeError.
Proof.
  assert (H1 : forall Q, PointOps.rmul 1 Q = (_ <- PointOps.add Q Q ;; Ok Q)).
  { intros Q. unfold PointOps.rmul.
    change (1 <? 0) with false. cbv iota.
    change (Z.to_nat (Z.log2 1 + 1)) with 1%nat. cbn [PointOps.rmul_loop].
    change (1 =? 0) with false. change (Z.land 1 1 =? 0) with false. cbv iota.
    change (PointOps.add INF Q) with (Ok Q). cbn [bind].
    change (Z.shiftr 1 1) with 0.
    destruct (PointOps.add Q Q); reflexivity. }
  split; [apply H1|].
  intros x y. rewrite H1. unfold PointOps.add.
  cbn [is_INF Point_x Point_y Point_curve opt_eqb curve_of as_int bind].
  rewrite !Z.eqb_refl. reflexivity.
Qed.

(** X8: doubling a point whose y is 0 (a point that is its own inverse)
    does not return the identity: the inverse of 0 is computed as 0, the
    slope is 0, and the sum is the point ((-2x) mod p, 0). *)
Theorem add_doubles_y_zero_to_a_point (c : Curve) (x : Z) :
  p c <> 0 ->
  PointOps.add (Pt (Some c) (Some x) (Some 0)) (Pt (Some c) (Some x) (Some 0))
  = Ok (Pt (Some c) (Some ((- 2 * x) mod p c)) (Some 0)).
Proof.
  intros Hp. unfold PointOps.add.
  cbn [is_INF Point_x Point_y Point_curve opt_eqb curve_of as_int bind].
  rewrite !Z.eqb_refl. cbn [negb andb].
  replace (2 * 0) with 0 by ring. rewrite (inv_zero (p c) Hp). cbn [bind].
  repeat (rewrite py_mod_ok by exact Hp; cbn [bind]).
  rewrite Z.mul_0_r.
  replace (0 ^ 2 - x - x) with (- 2 * x) by ring.
  replace (- (0 * ((- 2 * x) mod p c - x) + 0)) with 0 by ring.
  rewrite Z.mod_0_l by exact Hp. reflexivity.
Qed.

Lemma add_doubles_y_zero_to_a_point_witness :
  let c := mkCurve 17 0 7 in
  on_curve c (Pt (Some c) (Some 3) (Some 0))
  /\ PointOps.add (Pt (Some c) (Some 3) (Some 0)) (Pt (Some c) (Some 3) (Some 0))
     = Ok (Pt (Some c) (Some 11) (Some 0))
  /\ ~ on_curve c (Pt (Some c) (Some 11) (Some 0)).
Proof.
  intros c. split; [|split].
  - cbn. repeat split; lia.
  - apply (add_doubles_y_zero_to_a_point c 3). cbn. lia.
  - cbn. intros (_ & _ & _ & H). discriminate H.
Defined.

(** *** The sum of two points of the curve is on the curve *)

Lemma divide_of_mod_eq (p x y : Z) : p <> 0 -> x mod p = y mod p -> (p | x - y).
Proof.
  intros Hp H. exists (x / p - y / p).
  pose proof (Z.div_mod x p Hp). pose proof (Z.div_mod y p Hp). lia.
Qed.

Lemma mod_divide_diff (p x : Z) : p <> 0 -> (p | x mod p - x).
Proof.
  intros Hp. exists (- (x / p)). pose proof (Z.div_mod x p Hp). lia.
Qed.

(** The line through (x1, y1) with slope m meets the cubic again at
    X = m^2 - x1 - x2: the cubic's defect there is its defect at x1 plus a
    multiple of the coefficient that the choice of the slope cancels. *)
Lemma line_meets_cubic (a b m x1 y1 x2 : Z) :
  let X := m ^ 2 - x1 - x2 in
  (m * (X - x1) + y1) ^ 2 - (X ^ 3 + a * X + b)
  = (y1 ^ 2 - (x1 ^ 3 + a * x1 + b))
    + (- 2 * m ^ 2 * x1 + 2 * m * y1 - a + x1 * x2 + (x1 + x2) * X) * (X - x1).
Proof. cbv zeta. ring. Qed.

Lemma reduce_on_curve (p a b m x1 y1 X : Z) :
  p <> 0 ->
  (p | (m * (X - x1) + y1) ^ 2 - (X ^ 3 + a * X + b)) ->
  let rx := X mod p in
  let ry := (- (m * (rx - x1) + y1)) mod p in
  (ry ^ 2) mod p = (rx ^ 3 + a * rx + b) mod p.
Proof.
  intros Hp HF rx ry. apply mod_eq_of_divide; [exact Hp|].
  pose proof (mod_divide_diff p X Hp) as Hx. fold rx in Hx.
  pose proof (mod_divide_diff p (- (m * (rx - x1) + y1)) Hp) as Hy. fold ry in Hy.
  clearbody rx ry.
  replace (ry ^ 2 - (rx ^ 3 + a * rx + b))
    with ((ry - - (m * (rx - x1) + y1)) * (ry + - (m * (rx - x1) + y1))
          + (rx - X) * (m ^ 2 * (rx + X - 2 * x1) + 2 * m * y1
                        - (rx ^ 2 + rx * X + X ^ 2) - a)
          + ((m * (X - x1) + y1) ^ 2 - (X ^ 3 + a * X + b))) by ring.
  apply Z.divide_add_r; [apply Z.divide_add_r|exact HF];
    apply Z.divide_mul_l; assumption.
Qed.

Lemma chord_on_curve (p a b x1 y1 x2 y2 i : Z) :
  Z.prime p -> Z.gcd (x1 - x2) p = 1 -> ((x1 - x2) * i) mod p = 1 ->
  (y1 ^ 2) mod p = (x1 ^ 3 + a * x1 + b) mod p ->
  (y2 ^ 2) mod p = (x2 ^ 3 + a * x2 + b) mod p ->
  let m := (y1 - y2) * i in
  let rx := (m ^ 2 - x1 - x2) mod p in
  let ry := (- (m * (rx - x1) + y1)) mod p in
  (ry ^ 2) mod p = (rx ^ 3 + a * rx + b) mod p.
Proof.
  intros Hp Hg Hi H1 H2 m.
  pose proof (Z.prime_ge_2 p Hp) as Hp2.
  apply divide_of_mod_eq in H1; [|lia]. apply divide_of_mod_eq in H2; [|lia].
  apply divide_of_mod_1 in Hi; [|exact Hp2]. destruct Hi as [k Hk].
  assert (Hm : m * (x1 - x2) = (y1 - y2) + p * ((y1 - y2) * k)).
  { unfold m. replace ((y1 - y2) * i * (x1 - x2))
      with ((y1 - y2) * ((x1 - x2) * i - 1) + (y1 - y2)) by ring.
    rewrite Hk. ring. }
  clearbody m.
  apply reduce_on_curve; [lia|].
  rewrite (line_meets_cubic a b m x1 y1 x2). cbv zeta.
  apply Z.divide_add_r; [exact H1|]. apply Z.divide_mul_l.
  apply (Z.gauss p (x1 - x2)); [|rewrite Z.gcd_comm; exact Hg].
  replace ((x1 - x2) * (- 2 * m ^ 2 * x1 + 2 * m * y1 - a + x1 * x2
                        + (x1 + x2) * (m ^ 2 - x1 - x2)))
    with ((y1 ^ 2 - (x1 ^ 3 + a * x1 + b)) - (y2 ^ 2 - (x2 ^ 3 + a * x2 + b))
          + (m * (x1 - x2) - (y1 - y2))
            * (2 * y1 - (m * (x1 - x2) - (y1 - y2)) - 2 * (y1 - y2))) by ring.
  apply Z.divide_add_r; [apply Z.divide_sub_r; assumption|].
  apply Z.divide_mul_l. exists ((y1 - y2) * k). lia.
Qed.

Lemma tangent_on_curve (p a b x1 y1 i : Z) :
  p <> 0 -> (p | (2 * y1) * i - 1) ->
  (y1 ^ 2) mod p = (x1 ^ 3 + a * x1 + b) mod p ->
  let m := (3 * x1 ^ 2 + a) * i in
  let rx := (m ^ 2 - x1 - x1) mod p in
  let ry := (- (m * (rx - x1) + y1)) mod p in
  (ry ^ 2) mod p = (rx ^ 3 + a * rx + b) mod p.
Proof.
  intros Hp [k Hk] H1 m.
  apply divide_of_mod_eq in H1; [|exact Hp].
  assert (Hm : 2 * m * y1 - a - 3 * x1 ^ 2 = p * ((3 * x1 ^ 2 + a) * k)).
  { unfold m. replace (2 * ((3 * x1 ^ 2 + a) * i) * y1 - a - 3 * x1 ^ 2)
      with ((3 * x1 ^ 2 + a) * (2 * y1 * i - 1)) by ring.
    rewrite Hk. ring. }
  clearbody m.
  apply reduce_on_curve; [exact Hp|].
  rewrite (line_meets_cubic a b m x1 y1 x1). cbv zeta.
  apply Z.divide_add_r; [exact H1|]. apply Z.divide_mul_l.
  replace (- 2 * m ^ 2 * x1 + 2 * m * y1 - a + x1 * x1
           + (x1 + x1) * (m ^ 2 - x1 - x1))
    with (2 * m * y1 - a - 3 * x1 ^ 2) by ring.
  rewrite Hm. apply Z.divide_factor_l.
Qed.

Lemma doubling_coprime (p y : Z) :
  Z.prime p -> p <> 2 -> 0 < y < p -> Z.gcd (2 * y) p = 1.
Proof.
  intros Hp H2 Hy. pose proof (Z.prime_ge_2 p Hp).
  rewrite Z.gcd_comm. apply Z.coprime_prime_l; [exact Hp|].
  intros Hd. apply (Z.divide_prime_mul 2 y p Hp) in Hd.
  destruct Hd as [[k Hk]|[k Hk]].
  - assert (0 < k) by (destruct (Z.lt_ge_cases 0 k); [assumption|nia]).
    assert (p <= k * p) by nia. lia.
  - assert (0 < k) by (destruct (Z.lt_ge_cases 0 k); [assumption|nia]).
    assert (p <= k * p) by nia. lia.
Qed.

(** X9: over a prime field other than the field of two elements, the sum
    of two points of a curve is computed without error and is again a
    point of that curve (the identity, or field elements satisfying the
    curve equation), with the one exception of doubling a point whose y
    is 0. *)
Theorem add_stays_on_curve (c : Curve) (P Q : Point) :
  Z.prime (p c) -> p c <> 2 -> on_curve c P -> on_curve c Q ->
  (P = Q -> Point_y P <> Some 0) ->
  exists R, PointOps.add P Q = Ok R /\ on_curve c R.
Proof.
  intros Hp Hodd HP HQ Hy0.
  pose proof (Z.prime_ge_2 _ Hp) as Hp2.
  destruct P as [|cP [x1|] [y1|]]; try contradiction;
    [exists Q; split; [reflexivity|exact HQ]|].
  destruct Q as [|cQ [x2|] [y2|]]; try contradiction;
    [eexists; split; [reflexivity|exact HP]|].
  destruct HP as (-> & Hx1 & Hy1 & E1). destruct HQ as (-> & Hx2 & Hy2 & E2).
  unfold PointOps.add.
  cbn [is_INF Point_x Point_y Point_curve opt_eqb curve_of as_int bind].
  destruct (Z.eqb_spec x1 x2) as [Hx|Hx].
  - destruct (Z.eqb_spec y1 y2) as [Hy|Hy]; cbn [negb andb];
      [|exists INF; split; [reflexivity|exact I]].
    subst x2 y2.
    assert (Hy1' : 0 < y1 < p c).
    { destruct (Z.eq_dec y1 0) as [->|?]; [|lia].
      exfalso. apply (Hy0 eq_refl). reflexivity. }
    destruct (inv_spec (2 * y1) (p c) Hp2 (doubling_coprime _ _ Hp Hodd Hy1'))
      as (i & -> & _ & Hi).
    cbn [bind]. repeat (rewrite py_mod_ok by lia; cbn [bind]).
    eexists. split; [reflexivity|].
    cbn [on_curve]. split; [reflexivity|].
    split; [apply Z.mod_pos_bound; lia|]. split; [apply Z.mod_pos_bound; lia|].
    apply (tangent_on_curve (p c) (a c) (b c) x1 y1 i);
      [lia|apply divide_of_mod_1; assumption|exact E1].
  - cbn [andb].
    pose proof (distinct_coordinates_coprime _ _ _ Hp Hx1 Hx2 Hx) as Hg.
    destruct (inv_spec (x1 - x2) (p c) Hp2 Hg) as (i & -> & _ & Hi).
    cbn [bind]. repeat (rewrite py_mod_ok by lia; cbn [bind]).
    eexists. split; [reflexivity|].
    cbn [on_curve]. split; [reflexivity|].
    split; [apply Z.mod_pos_bound; lia|]. split; [apply Z.mod_pos_bound; lia|].
    apply (chord_on_curve (p c) (a c) (b c) x1 y1 x2 y2 i); assumption.
Qed.

Lemma add_stays_on_curve_witness :
  let c := mkCurve 17 0 7 in
  exists R, PointOps.add (Pt (Some c) (Some 1) (Some 5)) (Pt (Some c) (Some 15) (Some 13)) = Ok R
            /\ on_curve c R.
Proof.
  intros c.
  apply (add_stays_on_curve c (Pt (Some c) (Some 1) (Some 5))
                              (Pt (Some c) (Some 15) (Some 13))).
  - exact prime_17.
  - cbn. lia.
  - cbn. repeat split; lia.
  - cbn. repeat split; lia.
  - intros H. discriminate H.
Defined.

(** ** Scripts, continued *)

Lemma encode_cmd_unencodable (v : pyval) :
  unencodable v -> exists e, ScriptOps.encode_cmd v = Raise e.
Proof.
  unfold unencodable, ScriptOps.encode_cmd.
  destruct (isinstance_int v) as [i|].
  - intros Hi. unfold encode_int.
    change (256 ^ Z.of_nat 1) with 256.
    destruct (Z.ltb_spec i 0); [eexists; reflexivity|].
    destruct (Z.leb_spec 256 i); [eexists; reflexivity|lia].
  - destruct (isinstance_bytes v) as [content|]; [|contradiction].
    intros Hl. destruct (Z.ltb_spec (Z.of_nat (List.length content)) 75); [lia|].
    eexists; reflexivity.
Qed.

(** X10: [Script.encode] never returns an encoding of a script that
    holds an int command outside 0..255 or a bytes command of 75 bytes or
    more, wherever in the script it stands: it raises. *)
Theorem script_encode_rejects_unencodable (l1 l2 : list pyval) (v : pyval) :
  unencodable v ->
  exists e, ScriptOps.encode (mkScript (l1 ++ v :: l2)) = Raise e.
Proof.
  intros Hv. destruct (encode_cmd_unencodable v Hv) as (e & He).
  unfold ScriptOps.encode. cbn [cmds]. rewrite mapM_app. cbn [mapM]. rewrite He.
  destruct (mapM ScriptOps.encode_cmd l1) as [xs|e1]; cbn [bind];
    eexists; reflexivity.
Qed.

Lemma script_encode_rejects_unencodable_witness :
  exists e, ScriptOps.encode
              (mkScript ([PInt 118] ++ PBytes (repeat x00 75) :: [PInt 172]))
            = Raise e.
Proof.
  apply (script_encode_rejects_unencodable [PInt 118] [PInt 172]
           (PBytes (repeat x00 75))).
  cbn. lia.
Defined.

(** X11: with the public-key hash given as 20 bytes, the implied locking
    script of [create_transaction_input] encodes to the 26 bytes
    19 76 a9 14 <hash> 7e ac: its length, the two opcodes, the push of
    the hash, and the opcodes 126 and 172. *)
Theorem locking_script_encoding_of_bytes_hash
    (self : Transaction) (txid : bytes) (idx : Z) (hash : bytes)
    (script_sig : option Script) (sequence : Z) :
  List.length hash = 20%nat ->
  ScriptOps.encode
    (prev_transaction_script_pubkey
       (TransactionOps.create_transaction_input
          self txid idx (PBytes hash) script_sig sequence))
  = Ok ([x19; x76; xa9; x14] ++ hash ++ [x7e; xac]).
Proof.
  intros Hl. unfold ScriptOps.encode, TransactionOps.create_transaction_input.
  cbn [prev_transaction_script_pubkey cmds mapM ScriptOps.encode_cmd
       isinstance_int isinstance_bytes].
  rewrite Hl. cbn [bind Z.of_nat Z.ltb]. cbn.
  rewrite length_app, Hl. reflexivity.
Qed.

Lemma locking_script_encoding_of_bytes_hash_witness :
  ScriptOps.encode
    (prev_transaction_script_pubkey
       (TransactionOps.create_transaction_input
          (mkTransaction 1 0) [] 0 (PBytes (repeat xab 20)) None 0xffffffff))
  = Ok ([x19; x76; xa9; x14] ++ repeat xab 20 ++ [x7e; xac]).
Proof.
  apply (locking_script_encoding_of_bytes_hash
           (mkTransaction 1 0) [] 0 (repeat xab 20) None 0xffffffff).
  reflexivity.
Defined.

(** ** Transaction serialization, continued *)

(** X12: a [script_override] other than [None], [True] and [False] (the
    ints 0 and 1 included, which equal the booleans but are not them) never
    yields bytes: [encode_transaction_input] raises the [ValueError] that
    names the three values, once the previous index has been encoded. *)
Theorem encode_input_rejects_other_override (tx : Transaction)
    (txin : TransactionInput) (v : pyval) :
  v <> PNone -> (forall flag, v <> PBool flag) ->
  (exists e, TransactionOps.encode_transaction_input tx txin v = Raise e)
  /\ (0 <= prev_transaction_idx txin < 2 ^ 32 ->
      TransactionOps.encode_transaction_input tx txin v
      = Raise (ValueError "script_override must be one of None, True or False")).
Proof.
  intros Hn Hb. unfold TransactionOps.encode_transaction_input.
  assert (Hv : match v with
               | PNone => match script_sig txin with
                          | Some sc => ScriptOps.encode sc
                          | None => Raise AttributeError
                          end
               | PBool true =>
                   ScriptOps.encode (prev_transaction_script_pubkey txin)
               | PBool false => ScriptOps.encode (mkScript [])
               | _ => Raise (ValueError
                        "script_override must be one of None, True or False")
               end
               = Raise (ValueError
                        "script_override must be one of None, True or False")).
  { destruct v as [|flag| | |]; try reflexivity;
      [contradiction|exfalso; apply (Hb flag); reflexivity]. }
  rewrite Hv. split.
  - destruct (encode_int (prev_transaction_idx txin) 4 little);
      cbn [bind]; eexists; reflexivity.
  - intros Hi.
    destruct (encode_int_little_ok (prev_transaction_idx txin) 4
                ltac:(change (256 ^ Z.of_nat 4) with (2 ^ 32); lia))
      as (w & -> & _).
    reflexivity.
Qed.

Lemma encode_input_rejects_other_override_witness :
  TransactionOps.encode_transaction_input (mkTransaction 1 0)
    (TransactionOps.create_transaction_input (mkTransaction 1 0)
       [] 0 (PStr "ab") None 0xffffffff)
    (PInt 1)
  = Raise (ValueError "script_override must be one of None, True or False").
Proof.
  destruct (encode_input_rejects_other_override (mkTransaction 1 0)
              (TransactionOps.create_transaction_input (mkTransaction 1 0)
                 [] 0 (PStr "ab") None 0xffffffff)
              (PInt 1)) as [_ H].
  - discriminate.
  - discriminate.
  - apply H. cbn. lia.
Defined.

Lemma mapM_map {A B C : Type} (f : B -> res C) (g : A -> B) (l : list A) :
  mapM f (map g l) = mapM (fun x => f (g x)) l.
Proof.
  induction l as [|x l IH]; cbn [map mapM]; [reflexivity|].
  rewrite IH. reflexivity.
Qed.

Lemma enumerate_from_map {A B : Type} (g : A -> B) (k : Z) (l : list A) :
  TransactionOps.enumerate_from k (map g l)
  = map (fun it => (fst it, g (snd it))) (TransactionOps.enumerate_from k l).
Proof.
  revert k. induction l as [|x l IH]; intros k;
    cbn [map TransactionOps.enumerate_from]; [reflexivity|].
  rewrite IH. reflexivity.
Qed.

(** X13: the encoding that is signed does not depend on any unlocking
    script: for every sig_index other than -1, replacing the [script_sig]
    of every input by anything leaves [Transaction.encode] unchanged.  The
    final encoding (sig_index -1) in turn does not depend on the implied
    locking scripts. *)
Theorem sighash_encoding_ignores_script_sig (tx : Transaction)
    (ins : list TransactionInput) (outs : list TransactionOutput)
    (sig_index : Z) (f : TransactionInput -> option Script)
    (g : TransactionInput -> Script) :
  (sig_index <> -1 ->
   TransactionOps.encode tx (map (fun txin => with_script_sig (f txin) txin) ins)
     outs sig_index
   = TransactionOps.encode tx ins outs sig_index)
  /\ TransactionOps.encode tx
       (map (fun txin => with_script_pubkey (g txin) txin) ins) outs (-1)
     = TransactionOps.encode tx ins outs (-1).
Proof.
  split.
  - intros Hne. unfold TransactionOps.encode, TransactionOps.encode_chunks.
    destruct (Z.eqb_spec sig_index (-1)) as [|_]; [contradiction|].
    rewrite length_map, enumerate_from_map, mapM_map. reflexivity.
  - unfold TransactionOps.encode, TransactionOps.encode_chunks.
    cbn [Z.eqb]. rewrite length_map, mapM_map. reflexivity.
Qed.

Lemma sighash_encoding_ignores_script_sig_witness :
  let tx := mkTransaction 1 0 in
  let txin := TransactionOps.create_transaction_input
                tx [x01; x02] 0 (PBytes [xaa; xbb]) None 0xffffffff in
  TransactionOps.encode tx
    (map (fun t => with_script_sig (Some (mkScript [PInt 1])) t) [txin]) [] 0
  = TransactionOps.encode tx [txin] [] 0.
Proof.
  intros tx txin.
  destruct (sighash_encoding_ignores_script_sig tx [txin] [] 0
              (fun _ => Some (mkScript [PInt 1]))
              (fun t => prev_transaction_script_pubkey t)) as [H _].
  apply H. lia.
Defined.

Lemma mapM_raises_at_member {A B : Type} (f : A -> res B) (l : list A) (x : A) :
  In x l -> (exists e, f x = Raise e) -> exists e, mapM f l = Raise e.
Proof.
  intros Hin Hx. induction l as [|y l IH]; [contradiction|].
  cbn [mapM]. destruct Hin as [->|Hin].
  - destruct Hx as (e & ->). eexists. reflexivity.
  - destruct (f y); cbn [bind]; [|eexists; reflexivity].
    destruct (IH Hin) as (e & ->). eexists. reflexivity.
Qed.

Lemma final_encoding_raises_without_script_sig (tx : Transaction)
    (ins : list TransactionInput) (outs : list TransactionOutput)
    (txin : TransactionInput) :
  script_sig txin = None -> In txin ins ->
  exists e, TransactionOps.encode tx ins outs (-1) = Raise e.
Proof.
  intros Hnone Hin.
  assert (Hin1 : exists e,
            TransactionOps.encode_transaction_input tx txin PNone = Raise e).
  { unfold TransactionOps.encode_transaction_input. rewrite Hnone.
    destruct (encode_int (prev_transaction_idx txin) 4 little);
      cbn [bind]; eexists; reflexivity. }
  unfold TransactionOps.encode, TransactionOps.encode_chunks.
  cbn [Z.eqb].
  destruct (encode_int (version tx) 4 little); cbn [bind];
    [|eexists; reflexivity].
  destruct (encode_varint (Z.of_nat (List.length ins))); cbn [bind];
    [|eexists; reflexivity].
  destruct (mapM_raises_at_member
              (fun t => TransactionOps.encode_transaction_input tx t PNone)
              ins txin Hin Hin1) as (e & ->).
  eexists. reflexivity.
Qed.

(** X14: the final encoding cannot be produced while an input has no
    unlocking script: if some input's [script_sig] is [None] (the default
    of [create_transaction_input]), [Transaction.encode] with sig_index
    -1 raises; when that input is the first one and the version, the
    number of inputs and the previous index are in range, the error is
    the [AttributeError] of calling [encode] on [None]. *)
Theorem final_encoding_needs_script_sig (tx : Transaction)
    (ins : list TransactionInput) (outs : list TransactionOutput)
    (txin : TransactionInput) :
  script_sig txin = None ->
  (In txin ins -> exists e, TransactionOps.encode tx ins outs (-1) = Raise e)
  /\ (forall rest,
        0 <= version tx < 2 ^ 32 ->
        Z.of_nat (List.length (txin :: rest)) < 2 ^ 64 ->
        0 <= prev_transaction_idx txin < 2 ^ 32 ->
        TransactionOps.encode tx (txin :: rest) outs (-1) = Raise AttributeError).
Proof.
  intros Hnone.
  split.
  - intros Hin.
    exact (final_encoding_raises_without_script_sig tx ins outs txin Hnone Hin).
  - intros rest Hv Hlen Hidx.
    unfold TransactionOps.encode, TransactionOps.encode_chunks. cbn [Z.eqb].
    destruct (encode_int_little_ok (version tx) 4
                ltac:(change (256 ^ Z.of_nat 4) with (2 ^ 32); lia))
      as (v & -> & _). cbn [bind].
    assert (Hvar : exists l, encode_varint (Z.of_nat (List.length (txin :: rest))) = Ok l).
    { destruct (encode_varint (Z.of_nat (List.length (txin :: rest)))) as [l|e] eqn:E;
        [eexists; reflexivity|].
      exfalso. revert E. unfold encode_varint, bytes_of_ints, encode_int. cbn [mapM].
      set (k := Z.of_nat (List.length (txin :: rest))) in *.
      assert (0 <= k) by (unfold k; lia).
      change (256 ^ Z.of_nat 2) with 65536.
      change (256 ^ Z.of_nat 4) with 4294967296.
      change (256 ^ Z.of_nat 8) with 18446744073709551616.
      repeat match goal with
             | |- context [Z.ltb ?x ?y] => destruct (Z.ltb_spec x y)
             | |- context [Z.leb ?x ?y] => destruct (Z.leb_spec x y)
             end; cbn; try discriminate; lia. }
    destruct Hvar as (l & ->). cbn [bind mapM].
    unfold TransactionOps.encode_transaction_input at 1. rewrite Hnone.
    destruct (encode_int_little_ok (prev_transaction_idx txin) 4
                ltac:(change (256 ^ Z.of_nat 4) with (2 ^ 32); lia))
      as (w & -> & _).
    reflexivity.
Qed.

Lemma final_encoding_needs_script_sig_witness :
  let tx := mkTransaction 1 0 in
  let txin := TransactionOps.create_transaction_input
                tx [x01; x02] 0 (PBytes [xaa; xbb]) None 0xffffffff in
  TransactionOps.encode tx [txin] [] (-1) = Raise AttributeError.
Proof.
  intros tx txin.
  destruct (final_encoding_needs_script_sig tx [txin] [] txin eq_refl) as [_ H].
  apply H; cbn; lia.
Defined.

(** X15: [encode_transaction_output] raises [OverflowError] on an amount
    that is negative or does not fit 8 bytes, whatever the script; on any
    other amount its result is the 8 little-endian bytes of the amount
    followed by the encoding of the locking script, and what the script
    raises when that cannot be encoded. *)
Theorem encode_output_amount (tx : Transaction) (txout : TransactionOutput) :
  (amount txout < 0 \/ 2 ^ 64 <= amount txout ->
   TransactionOps.encode_transaction_output tx txout = Raise OverflowError)
  /\ (0 <= amount txout < 2 ^ 64 ->
      exists v, List.length v = 8%nat
                /\ int_from_bytes_little v = amount txout
                /\ TransactionOps.encode_transaction_output tx txout
                   = (sb <- ScriptOps.encode (script_pubkey txout) ;; Ok (v ++ sb))).
Proof.
  unfold TransactionOps.encode_transaction_output. split.
  - intros Ha. unfold encode_int.
    change (256 ^ Z.of_nat 8) with (2 ^ 64).
    destruct (Z.ltb_spec (amount txout) 0); [reflexivity|].
    destruct (Z.leb_spec (2 ^ 64) (amount txout)); [reflexivity|lia].
  - intros Ha.
    destruct (encode_int_little_ok (amount txout) 8
                ltac:(change (256 ^ Z.of_nat 8) with (2 ^ 64); lia))
      as (v & -> & Hlen & Hval).
    exists v. split; [exact Hlen|]. split; [exact Hval|].
    cbn [bind]. destruct (ScriptOps.encode (script_pubkey txout)); cbn [bind];
      [|reflexivity].
    unfold join. cbn [List.concat]. rewrite app_nil_r. reflexivity.
Qed.

Lemma encode_output_amount_witness :
  TransactionOps.encode_transaction_output (mkTransaction 1 0)
    (TransactionOps.create_transaction_output (mkTransaction 1 0) (-1) (mkScript []))
  = Raise OverflowError
  /\ exists v, List.length v = 8%nat
               /\ int_from_bytes_little v = 50000
               /\ TransactionOps.encode_transaction_output (mkTransaction 1 0)
                    (TransactionOps.create_transaction_output
                       (mkTransaction 1 0) 50000 (mkScript [PInt 118]))
                  = (sb <- ScriptOps.encode (mkScript [PInt 118]) ;; Ok (v ++ sb)).
Proof.
  split.
  - destruct (encode_output_amount (mkTransaction 1 0)
                (TransactionOps.create_transaction_output
                   (mkTransaction 1 0) (-1) (mkScript []))) as [H _].
    apply H. cbn. lia.
  - destruct (encode_output_amount (mkTransaction 1 0)
                (TransactionOps.create_transaction_output
                   (mkTransaction 1 0) 50000 (mkScript [PInt 118]))) as [_ H].
    apply H. cbn. lia.
Defined.

(** ** DER encoding of signatures, continued *)

Lemma int_from_bytes_big_zero_head (v : bytes) :
  int_from_bytes_big (x00 :: v) = int_from_bytes_big v.
Proof.
  unfold int_from_bytes_big. cbn [rev].
  rewrite int_from_bytes_little_app. cbn [int_from_bytes_little].
  change (Z_of_byte x00) with 0. lia.
Qed.

Lemma lstrip0_value (v : bytes) :
  int_from_bytes_big (lstrip0 v) = int_from_bytes_big v.
Proof.
  induction v as [|c v IH]; [reflexivity|].
  cbn [lstrip0]. destruct (Byte.eqb c x00) eqn:Hc; [|reflexivity].
  apply Byte.byte_dec_bl in Hc. subst c.
  rewrite int_from_bytes_big_zero_head. exact IH.
Qed.

Lemma lstrip0_head (v : bytes) (c : byte) (rest : bytes) :
  lstrip0 v = c :: rest -> c <> x00.
Proof.
  induction v as [|d v IH]; [discriminate|].
  cbn [lstrip0]. destruct (Byte.eqb d x00) eqn:Hd; [exact IH|].
  intros [= -> _]. apply Byte.eqb_false. exact Hd.
Qed.

(** What [dern] returns on a number that has a 32-byte encoding and is
    not zero. *)
Lemma dern_spec (n : Z) :
  1 <= n <= 2 ^ 256 - 1 ->
  exists nb, SignatureOps.dern n = Ok nb
             /\ int_from_bytes_big nb = n
             /\ der_positive_integer nb
             /\ (1 <= List.length nb <= 33)%nat.
Proof.
  intros Hn. destruct (dern_ok n Hn) as (nb & Hnb & Hlen).
  exists nb. split; [exact Hnb|]. split; [|split; [|exact Hlen]];
    revert Hnb; unfold SignatureOps.dern;
    destruct (encode_int_big_ok n 32
                ltac:(change (256 ^ Z.of_nat 32) with (2 ^ 256); lia))
      as (v & -> & _ & Hval);
    cbn [bind];
    pose proof (lstrip0_value v) as Hsv;
    destruct (lstrip0 v) as [|first rest] eqn:Hstrip; try discriminate;
    pose proof (lstrip0_head v first rest Hstrip) as Hfirst;
    intros [= <-].
  - destruct (0x80 <=? Z_of_byte first); cbn [app];
      rewrite ?int_from_bytes_big_zero_head; lia.
  - destruct (Z.leb_spec 0x80 (Z_of_byte first)); cbn [app der_positive_integer].
    + split; [change (Z_of_byte x00) with 0; lia|]. intros _. assumption.
    + split; [assumption|]. intros ->. contradiction.
Qed.

(** X16: for r and s in [1, 2^256 - 1] the result of [signature_encode]
    is 30 L 02 Lr <r bytes> 02 Ls <s bytes>, where the r and s bytes read
    back big-endian as r and s, each is a positive DER integer in the
    shortest form (sign bit clear, no needless leading zero), Lr and Ls
    are their lengths and L = Lr + Ls + 4; the whole is at most 72
    bytes. *)
Theorem signature_encode_der_structure (sig : Signature) :
  1 <= r sig <= 2 ^ 256 - 1 -> 1 <= s sig <= 2 ^ 256 - 1 ->
  exists rb sb,
    SignatureOps.signature_encode sig
    = Ok ([x30; byte_of_Z (Z.of_nat (List.length rb + List.length sb + 4));
           x02; byte_of_Z (Z.of_nat (List.length rb))]
          ++ rb ++ [x02; byte_of_Z (Z.of_nat (List.length sb))] ++ sb)
    /\ int_from_bytes_big rb = r sig /\ int_from_bytes_big sb = s sig
    /\ der_positive_integer rb /\ der_positive_integer sb
    /\ (List.length rb + List.length sb + 6 <= 72)%nat.
Proof.
  intros Hr Hs.
  destruct (dern_spec (r sig) Hr) as (rb & Hrb & Hrv & Hrd & Hrl).
  destruct (dern_spec (s sig) Hs) as (sb & Hsb & Hsv & Hsd & Hsl).
  exists rb, sb. repeat split; try assumption; [|lia].
  unfold SignatureOps.signature_encode. rewrite Hrb, Hsb. cbn [bind].
  rewrite (bytes_of_ints_pair 0x02 (Z.of_nat (List.length rb))) by lia.
  rewrite (bytes_of_ints_pair 0x02 (Z.of_nat (List.length sb))) by lia.
  cbn [bind]. unfold join. cbn [List.concat].
  rewrite !app_nil_r.
  assert (Hcl : List.length ([byte_of_Z 2; byte_of_Z (Z.of_nat (List.length rb))]
                             ++ rb ++ [byte_of_Z 2; byte_of_Z (Z.of_nat (List.length sb))]
                             ++ sb)
                = (List.length rb + List.length sb + 4)%nat).
  { rewrite !length_app. cbn [List.length]. lia. }
  rewrite bytes_of_ints_pair; [|lia|rewrite Hcl; lia].
  cbn [bind]. rewrite Hcl. reflexivity.
Qed.

Lemma signature_encode_der_structure_witness :
  exists rb sb,
    SignatureOps.signature_encode (mkSignature 1 128)
    = Ok ([x30; byte_of_Z (Z.of_nat (List.length rb + List.length sb + 4));
           x02; byte_of_Z (Z.of_nat (List.length rb))]
          ++ rb ++ [x02; byte_of_Z (Z.of_nat (List.length sb))] ++ sb)
    /\ int_from_bytes_big rb = 1 /\ int_from_bytes_big sb = 128
    /\ der_positive_integer rb /\ der_positive_integer sb
    /\ (List.length rb + List.length sb + 6 <= 72)%nat.
Proof.
  apply (signature_encode_der_structure (mkSignature 1 128)); cbn; lia.
Defined.

(** X17: zero, a negative number and a number of 2^256 or more in the
    place of r make [signature_encode] raise: [IndexError] for 0, whose
    stripped encoding is empty, and [OverflowError] for the others. *)
Theorem signature_encode_rejects_r (sig : Signature) :
  (r sig = 0 -> SignatureOps.signature_encode sig = Raise IndexError)
  /\ (r sig < 0 \/ 2 ^ 256 <= r sig ->
      SignatureOps.signature_encode sig = Raise OverflowError).
Proof.
  unfold SignatureOps.signature_encode, SignatureOps.dern. split.
  - intros ->. reflexivity.
  - intros Hr. unfold encode_int at 1.
    change (256 ^ Z.of_nat 32) with (2 ^ 256).
    destruct (Z.ltb_spec (r sig) 0); [reflexivity|].
    destruct (Z.leb_spec (2 ^ 256) (r sig)); [reflexivity|lia].
Qed.

Lemma signature_encode_rejects_r_witness :
  SignatureOps.signature_encode (mkSignature 0 5) = Raise IndexError
  /\ SignatureOps.signature_encode (mkSignature (-1) 5) = Raise OverflowError.
Proof.
  split.
  - destruct (signature_encode_rejects_r (mkSignature 0 5)) as [H _].
    apply H. reflexivity.
  - destruct (signature_encode_rejects_r (mkSignature (-1) 5)) as [_ H].
    apply H. cbn. lia.
Defined.

(** ** Signing, continued *)

Lemma round_binary64_small (n : Z) : 0 <= n < 2 ^ 53 -> round_binary64 n = n.
Proof.
  intros Hn. unfold round_binary64.
  destruct (Z.eq_dec n 0) as [->|Hz]; [reflexivity|].
  rewrite Z.abs_eq by lia.
  assert (Z.log2 n < 53) by (apply Z.log2_lt_pow2; lia).
  destruct (Z.leb_spec (Z.log2 n + 1 - 53) 0); [reflexivity|lia].
Qed.

(** X18: with a group order below 2^53, which float division halves
    exactly, every signature that [sign] returns has 0 <= s and
    2 s <= n: the low-s normalization holds. *)
Theorem sign_low_s_for_small_orders (secret_key : Z) (message : bytes)
    (generator : Generator) (sk : Z) (sig : Signature) :
  n generator < 2 ^ 53 ->
  sign secret_key message generator sk = Ok sig ->
  0 <= s sig /\ 2 * s sig <= n generator.
Proof.
  intros Hn Hsig. split.
  - revert Hsig. unfold sign.
    destruct (Z.leb_spec (n generator) 1) as [Hn1|Hn1]; [discriminate|].
    destruct (PointOps.rmul sk (G generator)) as [P|e]; cbn [bind]; [|discriminate].
    destruct (inv sk (n generator)) as [i|e]; cbn [bind]; [|discriminate].
    destruct (as_int (Point_x P)) as [rz|e]; cbn [bind]; [|discriminate].
    rewrite py_mod_ok by lia. cbn [bind].
    destruct (truediv_2 (n generator)) as [half|e]; cbn [bind]; [|discriminate].
    intros [= <-]. cbn [s].
    match goal with |- context [?x mod n generator] =>
      pose proof (Z.mod_pos_bound x (n generator) ltac:(lia)) end.
    destruct (int_gt_float _ half); lia.
  - apply (sign_low_s_when_exact secret_key message generator sk sig);
      [|exact Hsig].
    apply round_binary64_small. split; [|exact Hn].
    revert Hsig. unfold sign.
    destruct (Z.leb_spec (n generator) 1); [discriminate|lia].
Qed.

Lemma sign_low_s_for_small_orders_witness :
  let g := mkGenerator (Pt (Some (mkCurve 17 0 7)) (Some 15) (Some 13)) 18 in
  sign 3 [x01] g 5 = Ok (mkSignature 6 8) /\ 0 <= 8 /\ 2 * 8 <= 18.
Proof.
  intros g.
  assert (H : sign 3 [x01] g 5 = Ok (mkSignature 6 8)) by (vm_compute; reflexivity).
  split; [exact H|].
  apply (sign_low_s_for_small_orders 3 [x01] g 5 (mkSignature 6 8));
    [cbn; lia|exact H].
Defined.



(** ** Base58Check *)

(** The hash models on test vectors: RIPEMD-160 of the empty message, of
    "abc" and of a message of two blocks. *)
Example ripemd160_empty :
  hex (RIPEMD160.digest []) = "9c1185a5c5e9fc54612808977ee8f548b2258d31"%string.
Proof. vm_compute. reflexivity. Qed.

Example ripemd160_abc :
  hex (RIPEMD160.digest [x61; x62; x63])
  = "8eb208f7e05d987a9b044a8e98c6b087f15a0bfc"%string.
Proof. vm_compute. reflexivity. Qed.

Example ripemd160_two_blocks :
  hex (RIPEMD160.digest (repeat x61 119))
  = "23e398ff2bac815aa1bbb57ca2a669c841872919"%string.
Proof. vm_compute. reflexivity. Qed.

(** Every digit below 58 has a character, and that character is read back
    as the digit. *)
Lemma alphabet_digit (i : Z) :
  0 <= i < 58 ->
  exists c, String.get (Z.to_nat i) WalletOps.alphabet = Some c
            /\ b58_index c = Some i.
Proof.
  intros Hi.
  assert (Hall : forallb (fun k =>
                   match String.get k WalletOps.alphabet with
                   | Some c => match b58_index c with
                               | Some d => d =? Z.of_nat k
                               | None => false
                               end
                   | None => false
                   end) (seq 0 58) = true) by (vm_compute; reflexivity).
  rewrite forallb_forall in Hall.
  specialize (Hall (Z.to_nat i)).
  assert (Hin : In (Z.to_nat i) (seq 0 58)) by (apply in_seq; lia).
  specialize (Hall Hin).
  destruct (String.get (Z.to_nat i) WalletOps.alphabet) as [c|]; [|discriminate].
  exists c. split; [reflexivity|].
  destruct (b58_index c) as [d|]; [|discriminate].
  apply Z.eqb_eq in Hall. f_equal. lia.
Qed.

Lemma b58_value_from_app (acc : Z) (l1 l2 : list ascii) :
  b58_value_from acc (l1 ++ l2) =
  match b58_value_from acc l1 with
  | Some v => b58_value_from v l2
  | None => None
  end.
Proof.
  revert acc. induction l1 as [|c l1 IH]; intros acc; cbn [app b58_value_from];
    [reflexivity|].
  destruct (b58_index c); [apply IH|reflexivity].
Qed.

(** The loop of [b58encode] appends the base-58 digits of [n], least
    significant first; read in reverse they denote [n], and the most
    significant one is not the zero digit. *)
Lemma b58_loop_spec (fuel : nat) (n : Z) (chars : list ascii) :
  0 <= n < 2 ^ Z.of_nat fuel ->
  exists ds, WalletOps.b58_loop fuel n chars = Ok (chars ++ ds)
             /\ b58_value_from 0 (rev ds) = Some n
             /\ leading_ones (rev ds) = O.
Proof.
  revert n chars. induction fuel as [|fuel IH]; intros n chars Hn.
  - change (2 ^ Z.of_nat 0) with 1 in Hn. assert (n = 0) by lia. subst n.
    exists []. rewrite app_nil_r. repeat split.
  - cbn [WalletOps.b58_loop]. destruct (Z.eqb_spec n 0) as [->|Hz].
    { exists []. rewrite app_nil_r. repeat split. }
    pose proof (Z.mod_pos_bound n 58 ltac:(lia)) as Hm.
    destruct (alphabet_digit (n mod 58) Hm) as (c & -> & Hc).
    assert (Hq : 0 <= n / 58 < 2 ^ Z.of_nat fuel).
    { rewrite Nat2Z.inj_succ, Z.pow_succ_r in Hn by lia.
      split; [apply Z.div_pos; lia|apply Z.div_lt_upper_bound; lia]. }
    destruct (IH (n / 58) (chars ++ [c]) Hq) as (ds & -> & Hv & Hl).
    exists (c :: ds). rewrite <- app_assoc. split; [reflexivity|].
    cbn [rev]. rewrite b58_value_from_app, Hv. cbn [b58_value_from].
    rewrite Hc. split.
    + f_equal. pose proof (Z.div_mod n 58 ltac:(lia)). lia.
    + destruct (rev ds) as [|d rest] eqn:Hr.
      * cbn [app leading_ones].
        destruct (Ascii.eqb_spec c "1"%char) as [->|]; [|reflexivity].
        exfalso. cbn in Hv. injection Hv as Hv.
        assert (H1 : b58_index "1" = Some 0) by reflexivity.
        rewrite H1 in Hc. injection Hc as Hc.
        pose proof (Z.div_mod n 58 ltac:(lia)). lia.
      * cbn [app leading_ones] in *. destruct (Ascii.eqb d "1"); [discriminate|reflexivity].
Qed.

Lemma list_ascii_of_string_append (s1 s2 : string) :
  list_ascii_of_string (String.append s1 s2)
  = list_ascii_of_string s1 ++ list_ascii_of_string s2.
Proof.
  induction s1 as [|c s1 IH]; cbn [String.append list_ascii_of_string app];
    [reflexivity|].
  rewrite IH. reflexivity.
Qed.

Lemma int_from_bytes_little_nonneg (b : bytes) : 0 <= int_from_bytes_little b.
Proof.
  induction b as [|c b IH]; cbn [int_from_bytes_little]; [lia|].
  pose proof (Z_of_byte_range c). lia.
Qed.

Lemma b58_value_ones (k : nat) (acc : Z) (l : list ascii) :
  b58_value_from 0 (repeat "1"%char k ++ l) = b58_value_from 0 l.
Proof.
  induction k as [|k IH]; cbn [repeat app b58_value_from]; [reflexivity|].
  change (b58_index "1") with (Some 0). exact IH.
Qed.

Lemma leading_ones_repeat (k : nat) (l : list ascii) :
  leading_ones (repeat "1"%char k ++ l) = (k + leading_ones l)%nat.
Proof.
  induction k as [|k IH]; cbn [repeat app leading_ones]; [reflexivity|].
  change (Ascii.eqb "1" "1") with true. rewrite IH. reflexivity.
Qed.

Lemma leading_zero_bytes_lstrip0 (b : bytes) :
  (List.length b - List.length (lstrip0 b))%nat = leading_zero_bytes b.
Proof.
  induction b as [|c b IH]; [reflexivity|].
  cbn [lstrip0 leading_zero_bytes]. destruct (Byte.eqb c x00).
  - pose proof (lstrip0_length b). cbn [List.length]. lia.
  - cbn [List.length]. lia.
Qed.

(** What [b58encode] returns on an input of 25 bytes. *)
Lemma b58encode_spec (self : Point) (b : bytes) :
  List.length b = 25%nat ->
  exists s, WalletOps.b58encode self b = Ok s
            /\ b58_value s = Some (int_from_bytes_big b)
            /\ leading_ones (list_ascii_of_string s) = leading_zero_bytes b.
Proof.
  intros Hl. unfold WalletOps.b58encode. rewrite Hl. cbn [Nat.eqb negb].
  set (n := int_from_bytes_big b).
  assert (Hn : 0 <= n) by apply int_from_bytes_little_nonneg.
  assert (Hf : 0 <= n < 2 ^ Z.of_nat (Z.to_nat (Z.log2 n + 1))).
  { rewrite Z2Nat.id by (pose proof (Z.log2_nonneg n); lia).
    destruct (Z.eq_dec n 0) as [->|Hz]; [cbn; lia|].
    pose proof (Z.log2_spec n ltac:(lia)). lia. }
  destruct (b58_loop_spec _ n [] Hf) as (ds & -> & Hv & Hlead).
  cbn [bind app]. eexists. split; [reflexivity|].
  unfold b58_value.
  rewrite list_ascii_of_string_append, !list_ascii_of_string_of_list_ascii.
  split.
  - rewrite (b58_value_ones _ 0). exact Hv.
  - rewrite leading_ones_repeat, Hlead, Nat.add_0_r.
    rewrite <- Hl at 1. apply leading_zero_bytes_lstrip0.
Qed.

(** X20: [b58encode] fails its assertion on every input that is not 25
    bytes long; on 25 bytes it returns a string over the alphabet that
    reads back, as a number in base 58, as the big-endian number of the
    input, and that starts with exactly as many "1" characters as the
    input has leading zero bytes. *)
Theorem b58encode_reads_back (self : Point) (b : bytes) :
  (List.length b <> 25%nat -> WalletOps.b58encode self b = Raise AssertionError)
  /\ (List.length b = 25%nat ->
      exists s, WalletOps.b58encode self b = Ok s
                /\ b58_value s = Some (int_from_bytes_big b)
                /\ leading_ones (list_ascii_of_string s) = leading_zero_bytes b).
Proof.
  split.
  - intros Hl. unfold WalletOps.b58encode.
    destruct (Nat.eqb_spec (List.length b) 25); [contradiction|reflexivity].
  - apply b58encode_spec.
Qed.

Lemma b58encode_reads_back_witness :
  WalletOps.b58encode INF (repeat x00 24) = Raise AssertionError
  /\ exists s, WalletOps.b58encode INF (repeat x00 3 ++ repeat x2a 22) = Ok s
               /\ b58_value s
                  = Some (int_from_bytes_big (repeat x00 3 ++ repeat x2a 22))
               /\ leading_ones (list_ascii_of_string s)
                  = leading_zero_bytes (repeat x00 3 ++ repeat x2a 22).
Proof.
  split.
  - destruct (b58encode_reads_back INF (repeat x00 24)) as [H _].
    apply H. cbn. lia.
  - destruct (b58encode_reads_back INF (repeat x00 3 ++ repeat x2a 22)) as [_ H].
    apply H. reflexivity.
Defined.

Lemma byte_of_Z_of_byte (c : byte) : byte_of_Z (Z_of_byte c) = c.
Proof.
  unfold byte_of_Z, Z_of_byte.
  pose proof (Byte.to_N_bounded c).
  rewrite Z.mod_small by lia. rewrite N2Z.id, Byte.of_to_N. reflexivity.
Qed.

Lemma byte_of_Z_mod (z : Z) : byte_of_Z (z mod 256) = byte_of_Z z.
Proof.
  unfold byte_of_Z. rewrite Z.mod_mod by lia. reflexivity.
Qed.

(** The digits of the number that a byte string denotes are the string. *)
Lemma le_digits_of_value (b : bytes) :
  le_digits (List.length b) (int_from_bytes_little b) = b.
Proof.
  induction b as [|c b IH]; [reflexivity|].
  cbn [List.length le_digits int_from_bytes_little].
  pose proof (Z_of_byte_range c) as Hc.
  f_equal.
  - rewrite <- byte_of_Z_mod.
    replace ((Z_of_byte c + 256 * int_from_bytes_little b) mod 256)
      with (Z_of_byte c).
    + apply byte_of_Z_of_byte.
    + rewrite (Z.mul_comm 256), Z.mod_add by lia.
      symmetry. apply Z.mod_small. exact Hc.
  - replace ((Z_of_byte c + 256 * int_from_bytes_little b) / 256)
      with (int_from_bytes_little b); [exact IH|].
    rewrite (Z.mul_comm 256), Z.div_add by lia.
    rewrite (Z.div_small (Z_of_byte c)) by exact Hc. lia.
Qed.

Lemma int_from_bytes_big_inj (b1 b2 : bytes) :
  List.length b1 = List.length b2 ->
  int_from_bytes_big b1 = int_from_bytes_big b2 -> b1 = b2.
Proof.
  unfold int_from_bytes_big. intros Hl Hv.
  rewrite <- (rev_involutive b1), <- (rev_involutive b2). f_equal.
  rewrite <- (le_digits_of_value (rev b1)), <- (le_digits_of_value (rev b2)).
  rewrite Hv, !length_rev, Hl. reflexivity.
Qed.

(** X21: [b58encode] is injective: two inputs that it encodes to the
    same string are the same 25 bytes. *)
Theorem b58encode_injective (self1 self2 : Point) (b1 b2 : bytes) (s : string) :
  WalletOps.b58encode self1 b1 = Ok s ->
  WalletOps.b58encode self2 b2 = Ok s ->
  b1 = b2.
Proof.
  intros H1 H2.
  assert (Hl : forall self b, WalletOps.b58encode self b = Ok s ->
                 List.length b = 25%nat).
  { intros self b H. unfold WalletOps.b58encode in H.
    destruct (Nat.eqb_spec (List.length b) 25); [assumption|discriminate]. }
  pose proof (Hl _ _ H1) as L1. pose proof (Hl _ _ H2) as L2.
  destruct (b58encode_spec self1 b1 L1) as (s1 & E1 & V1 & _).
  destruct (b58encode_spec self2 b2 L2) as (s2 & E2 & V2 & _).
  rewrite H1 in E1. rewrite H2 in E2.
  injection E1 as <-. injection E2 as <-.
  apply int_from_bytes_big_inj; [congruence|congruence].
Qed.

Lemma b58encode_injective_witness :
  repeat x00 25 = repeat x00 25.
Proof.
  apply (b58encode_injective INF INF (repeat x00 25) (repeat x00 25)
           "1111111111111111111111111"); vm_compute; reflexivity.
Defined.

(** ** Public keys and addresses *)

(** X22: when secret_key * point is a point with coordinates x and y in
    [0, 2^256), [get_public_key] without hashing returns the SEC bytes:
    compressed, 33 bytes, the prefix 02 for an even y and 03 for an odd
    one followed by 32 bytes that read back big-endian as x;
    uncompressed, 65 bytes, the prefix 04 followed by 32 bytes for x and
    32 bytes for y. *)
Theorem get_public_key_sec (self : Point) (secret_key : Z) (point : Point)
    (c : option Curve) (x y : Z) :
  PointOps.rmul secret_key point = Ok (Pt c (Some x) (Some y)) ->
  0 <= x < 2 ^ 256 -> 0 <= y < 2 ^ 256 ->
  exists xb yb,
    List.length xb = 32%nat /\ int_from_bytes_big xb = x
    /\ List.length yb = 32%nat /\ int_from_bytes_big yb = y
    /\ WalletOps.get_public_key self secret_key point true false
       = Ok (PBytes ((if Z.even y then x02 else x03) :: xb))
    /\ WalletOps.get_public_key self secret_key point false false
       = Ok (PBytes (x04 :: xb ++ yb)).
Proof.
  intros Hmul Hx Hy.
  destruct (encode_int_big_ok x 32
              ltac:(change (256 ^ Z.of_nat 32) with (2 ^ 256); lia))
    as (xb & Exb & Lxb & Vxb).
  destruct (encode_int_big_ok y 32
              ltac:(change (256 ^ Z.of_nat 32) with (2 ^ 256); lia))
    as (yb & Eyb & Lyb & Vyb).
  exists xb, yb. repeat split; try assumption.
  - unfold WalletOps.get_public_key. rewrite Hmul.
    cbn [bind Point_x Point_y as_int attr_to_bytes]. rewrite Exb. cbn [bind].
    replace (y mod 2 =? 0) with (Z.even y); [destruct (Z.even y); reflexivity|].
    rewrite Zeven_mod. reflexivity.
  - unfold WalletOps.get_public_key. rewrite Hmul.
    cbn [bind Point_x Point_y as_int attr_to_bytes]. rewrite Exb, Eyb.
    reflexivity.
Qed.

Lemma get_public_key_sec_witness :
  exists xb yb,
    List.length xb = 32%nat
    /\ int_from_bytes_big xb
       = 0x79BE667EF9DCBBAC55A06295CE870B07029BFCDB2DCE28D959F2815B16F81798
    /\ List.length yb = 32%nat
    /\ int_from_bytes_big yb
       = 0x483ADA7726A3C4655DA4FBFC0E1108A8FD17B448A68554199C47D08FFB10D4B8
    /\ WalletOps.get_public_key INF 1 secp256k1_G true false
       = Ok (PBytes (x02 :: xb))
    /\ WalletOps.get_public_key INF 1 secp256k1_G false false
       = Ok (PBytes (x04 :: xb ++ yb)).
Proof.
  apply (get_public_key_sec INF 1 secp256k1_G (Some secp256k1)
           0x79BE667EF9DCBBAC55A06295CE870B07029BFCDB2DCE28D959F2815B16F81798
           0x483ADA7726A3C4655DA4FBFC0E1108A8FD17B448A68554199C47D08FFB10D4B8).
  - vm_compute. reflexivity.
  - lia.
  - lia.
Defined.

(** X23: [get_public_key] raises [AssertionError] for a negative secret
    key, and when secret_key * point is the identity (secret key 0, or a
    multiple of the order of the point) it raises [TypeError] in the
    compressed form, from the parity test of y, and [AttributeError] in
    the uncompressed form, from [x.to_bytes]; with or without hashing. *)
Theorem get_public_key_raises (self : Point) (secret_key : Z) (point : Point)
    (hash160 : bool) :
  (secret_key < 0 ->
   forall compressed,
     WalletOps.get_public_key self secret_key point compressed hash160
     = Raise AssertionError)
  /\ (PointOps.rmul secret_key point = Ok INF ->
      WalletOps.get_public_key self secret_key point true hash160
      = Raise TypeError
      /\ WalletOps.get_public_key self secret_key point false hash160
         = Raise AttributeError)
  /\ WalletOps.get_public_key self 0 point true hash160 = Raise TypeError.
Proof.
  split; [|split].
  - intros Hk compressed. unfold WalletOps.get_public_key, PointOps.rmul.
    destruct (Z.ltb_spec secret_key 0); [reflexivity|lia].
  - intros Hmul. unfold WalletOps.get_public_key. rewrite Hmul.
    split; reflexivity.
  - reflexivity.
Qed.

Lemma get_public_key_raises_witness :
  let g := Pt (Some (mkCurve 17 0 7)) (Some 15) (Some 13) in
  WalletOps.get_public_key INF (-1) g true true = Raise AssertionError
  /\ WalletOps.get_public_key INF 18 g true true = Raise TypeError
  /\ WalletOps.get_public_key INF 18 g false true = Raise AttributeError.
Proof.
  intros g.
  destruct (get_public_key_raises INF (-1) g true) as (Hneg & _).
  destruct (get_public_key_raises INF 18 g true) as (_ & Hinf & _).
  split; [apply Hneg; lia|].
  apply Hinf. vm_compute. reflexivity.
Defined.

(** *** Hexadecimal strings and digest lengths *)

Lemma hex_digit_value (d : Z) :
  0 <= d < 16 ->
  isspace (hex_digit d) = false /\ hex_value (hex_digit d) = Some d.
Proof.
  intros Hd.
  assert (Hc : d = 0 \/ d = 1 \/ d = 2 \/ d = 3 \/ d = 4 \/ d = 5 \/ d = 6
               \/ d = 7 \/ d = 8 \/ d = 9 \/ d = 10 \/ d = 11 \/ d = 12
               \/ d = 13 \/ d = 14 \/ d = 15) by lia.
  repeat (destruct Hc as [->|Hc]; [split; reflexivity|]).
  subst d. split; reflexivity.
Qed.

(** [bytes.fromhex(b.hex())] is [b]. *)
Lemma fromhex_hex (b : bytes) (pos : Z) : fromhex_from pos (hex b) = Ok b.
Proof.
  revert pos. induction b as [|c b IH]; intros pos; [reflexivity|].
  cbn [hex fromhex_from].
  pose proof (Z_of_byte_range c) as Hc.
  destruct (hex_digit_value (Z_of_byte c / 16)) as [Hs1 Hv1].
  { split; [apply Z.div_pos; lia|apply Z.div_lt_upper_bound; lia]. }
  destruct (hex_digit_value (Z_of_byte c mod 16)) as [Hs2 Hv2].
  { apply Z.mod_pos_bound. lia. }
  rewrite Hs1, Hv1, Hv2, IH. cbn [bind].
  rewrite <- (Z.div_mod (Z_of_byte c) 16) by lia.
  rewrite byte_of_Z_of_byte. reflexivity.
Qed.

Lemma hex_length (b : bytes) : String.length (hex b) = (2 * List.length b)%nat.
Proof.
  induction b as [|c b IH]; [reflexivity|].
  cbn [hex String.length List.length]. rewrite IH. lia.
Qed.

Lemma ripemd160_digest_length (msg : bytes) :
  List.length (RIPEMD160.digest msg) = 20%nat.
Proof.
  unfold RIPEMD160.digest.
  destruct (RIPEMD160.blocks _ RIPEMD160.initial _) as [[[[h0 h1] h2] h3] h4].
  rewrite !length_app, !le_digits_length. reflexivity.
Qed.

Lemma sha256_round_length (st : list Z) (kw : Z * Z) :
  List.length (SHA256.round st kw) = List.length st.
Proof.
  unfold SHA256.round.
  destruct st as [|a [|b [|c [|d [|e [|f [|g [|h [|i st]]]]]]]]]; reflexivity.
Qed.

Lemma sha256_compress_length (st block : list Z) :
  List.length (SHA256.compress st block) = List.length st.
Proof.
  unfold SHA256.compress.
  rewrite length_map, length_combine.
  assert (H : forall l s, List.length (fold_left SHA256.round l s) = List.length s).
  { intros l. induction l as [|kw l IH]; intros s; cbn [fold_left]; [reflexivity|].
    rewrite IH. apply sha256_round_length. }
  rewrite H. apply Nat.min_id.
Qed.

Lemma sha256_blocks_length (fuel : nat) (st ws : list Z) :
  List.length (SHA256.blocks fuel st ws) = List.length st.
Proof.
  revert st ws. induction fuel as [|fuel IH]; intros st ws; cbn [SHA256.blocks];
    [reflexivity|].
  destruct ws; [reflexivity|]. rewrite IH. apply sha256_compress_length.
Qed.

Lemma sha256_digest_length (msg : bytes) :
  List.length (SHA256.digest msg) = 32%nat.
Proof.
  unfold SHA256.digest.
  pose proof (sha256_blocks_length
                (List.length (SHA256.words (List.length (SHA256.pad msg))
                                           (SHA256.pad msg)))
                SHA256.H0
                (SHA256.words (List.length (SHA256.pad msg)) (SHA256.pad msg)))
    as Hl.
  change (List.length SHA256.H0) with 8%nat in Hl.
  destruct (SHA256.blocks _ SHA256.H0 _)
    as [|a [|b [|c [|d [|e [|f [|g [|h [|i st]]]]]]]]]; try discriminate.
  cbn [flat_map]. rewrite !length_app, !length_rev, !le_digits_length.
  reflexivity.
Qed.

Lemma get_address_of_digest (self : Point) (digest ver : bytes) (net : string) :
  List.length digest = 20%nat -> List.length ver = 1%nat ->
  WalletOps.version_byte net = Some ver ->
  exists addr,
    WalletOps.get_address self (PStr (hex digest)) net = Found (Ok addr)
    /\ b58_value addr
       = Some (int_from_bytes_big
                 ((ver ++ digest)
                  ++ firstn 4 (SHA256.digest (SHA256.digest (ver ++ digest)))))
    /\ leading_ones (list_ascii_of_string addr)
       = leading_zero_bytes
           ((ver ++ digest)
            ++ firstn 4 (SHA256.digest (SHA256.digest (ver ++ digest)))).
Proof.
  intros Hd Hv Hnet. unfold WalletOps.get_address. rewrite Hnet.
  unfold fromhex. rewrite fromhex_hex. cbn [bind].
  destruct (b58encode_spec self
              ((ver ++ digest)
               ++ firstn 4 (SHA256.digest (SHA256.digest (ver ++ digest)))))
    as (addr & -> & Hval & Hlead).
  { rewrite !length_app, length_firstn, sha256_digest_length, Hd, Hv. reflexivity. }
  exists addr. repeat split; assumption.
Qed.

(** X24: whatever [get_public_key] returns with hashing switched on is
    accepted by [get_address]: it is the hex string of a 20-byte digest,
    and for both networks [get_address] turns it into a Base58 string that
    reads back as version byte, digest and the first four bytes of the
    double SHA-256 of the two.  A main-network address starts with "1";
    a test-network address does not. *)
Theorem address_of_hashed_public_key (self : Point) (secret_key : Z)
    (point : Point) (compressed : bool) (v : pyval) :
  WalletOps.get_public_key self secret_key point compressed true = Ok v ->
  exists digest,
    v = PStr (hex digest) /\ List.length digest = 20%nat
    /\ (forall self',
          exists addr,
            WalletOps.get_address self' v "main" = Found (Ok addr)
            /\ b58_value addr
               = Some (int_from_bytes_big
                         (([x00] ++ digest)
                          ++ firstn 4 (SHA256.digest
                                         (SHA256.digest ([x00] ++ digest)))))
            /\ (1 <= leading_ones (list_ascii_of_string addr))%nat)
    /\ (forall self',
          exists addr,
            WalletOps.get_address self' v "test" = Found (Ok addr)
            /\ b58_value addr
               = Some (int_from_bytes_big
                         (([x6f] ++ digest)
                          ++ firstn 4 (SHA256.digest
                                         (SHA256.digest ([x6f] ++ digest)))))
            /\ leading_ones (list_ascii_of_string addr) = O).
Proof.
  unfold WalletOps.get_public_key.
  destruct (PointOps.rmul secret_key point) as [public_key|e];
    cbn [bind]; [|discriminate].
  match goal with |- bind ?m _ = _ -> _ => destruct m as [pkb|e] end;
    cbn [bind]; [|discriminate].
  intros [= <-].
  exists (RIPEMD160.digest (SHA256.digest pkb)).
  pose proof (ripemd160_digest_length (SHA256.digest pkb)) as Hd.
  split; [reflexivity|]. split; [exact Hd|]. split; intros self'.
  - destruct (get_address_of_digest self' _ [x00] "main" Hd eq_refl eq_refl)
      as (addr & Ha & Hv & Hl).
    exists addr. split; [exact Ha|]. split; [exact Hv|].
    rewrite Hl. cbn [app leading_zero_bytes].
    destruct (Byte.eqb x00 x00) eqn:E; [lia|vm_compute in E; discriminate E].
  - destruct (get_address_of_digest self' _ [x6f] "test" Hd eq_refl eq_refl)
      as (addr & Ha & Hv & Hl).
    exists addr. split; [exact Ha|]. split; [exact Hv|].
    rewrite Hl. reflexivity.
Qed.

Lemma address_of_hashed_public_key_witness :
  WalletOps.get_public_key INF 1 secp256k1_G true true
  = Ok (PStr "751e76e8199196d454941c45d1b3a323f1433bd6")
  /\ WalletOps.get_address INF (PStr "751e76e8199196d454941c45d1b3a323f1433bd6") "main"
     = Found (Ok "1BgGZ9tcN4rm9KBzDn7KprQz87SZ26SAMH"%string)
  /\ exists digest,
       PStr "751e76e8199196d454941c45d1b3a323f1433bd6" = PStr (hex digest)
       /\ List.length digest = 20%nat.
Proof.
  assert (H : WalletOps.get_public_key INF 1 secp256k1_G true true
              = Ok (PStr "751e76e8199196d454941c45d1b3a323f1433bd6"))
    by (vm_compute; reflexivity).
  split; [exact H|]. split; [vm_compute; reflexivity|].
  destruct (address_of_hashed_public_key INF 1 secp256k1_G true _ H)
    as (digest & Hv & Hl & _).
  exists digest. split; assumption.
Defined.

(** X25: [get_address] raises [KeyError] for a network name other than
    "main" and "test", before looking at the key.  For those two names it
    raises [TypeError] when the key is not a str, the [ValueError] of
    [bytes.fromhex] when the str is not hexadecimal, and the
    [AssertionError] of [b58encode] when the str decodes to other than 20
    bytes. *)
Theorem get_address_raises (self : Point) (public_key : pyval) (net : string) :
  (net <> "main"%string -> net <> "test"%string ->
   WalletOps.get_address self public_key net = KeyError net)
  /\ (net = "main"%string \/ net = "test"%string ->
      (forall s, public_key <> PStr s) ->
      WalletOps.get_address self public_key net = Found (Raise TypeError))
  /\ (net = "main"%string \/ net = "test"%string ->
      forall s e, public_key = PStr s -> fromhex s = Raise e ->
      WalletOps.get_address self public_key net = Found (Raise e))
  /\ (net = "main"%string \/ net = "test"%string ->
      forall s h, public_key = PStr s -> fromhex s = Ok h ->
      List.length h <> 20%nat ->
      WalletOps.get_address self public_key net = Found (Raise AssertionError)).
Proof.
  split; [|split; [|split]].
  - intros Hm Ht. unfold WalletOps.get_address, WalletOps.version_byte.
    destruct (String.eqb_spec net "main"); [contradiction|].
    destruct (String.eqb_spec net "test"); [contradiction|]. reflexivity.
  - intros Hnet Hs. unfold WalletOps.get_address.
    assert (Hv : exists ver, WalletOps.version_byte net = Some ver)
      by (destruct Hnet as [->| ->]; eexists; reflexivity).
    destruct Hv as (ver & ->).
    destruct public_key as [| | | |str]; try reflexivity.
    exfalso. apply (Hs str). reflexivity.
  - intros Hnet s e -> He. unfold WalletOps.get_address.
    assert (Hv : exists ver, WalletOps.version_byte net = Some ver)
      by (destruct Hnet as [->| ->]; eexists; reflexivity).
    destruct Hv as (ver & ->). rewrite He. reflexivity.
  - intros Hnet s h -> Hh Hl. unfold WalletOps.get_address.
    assert (Hv : exists ver, WalletOps.version_byte net = Some ver
                             /\ List.length ver = 1%nat)
      by (destruct Hnet as [->| ->]; eexists; split; reflexivity).
    destruct Hv as (ver & -> & Hver). rewrite Hh. cbn [bind].
    unfold WalletOps.b58encode.
    destruct (Nat.eqb_spec
                (List.length
                   ((ver ++ h)
                    ++ firstn 4 (SHA256.digest (SHA256.digest (ver ++ h))))) 25)
      as [Heq|]; [|reflexivity].
    exfalso. rewrite !length_app, length_firstn, sha256_digest_length, Hver in Heq.
    cbn in Heq. lia.
Qed.

Lemma get_address_raises_witness :
  WalletOps.get_address INF (PStr "00") "prod" = KeyError "prod"
  /\ WalletOps.get_address INF (PBytes [x00]) "main" = Found (Raise TypeError)
  /\ WalletOps.get_address INF (PStr "0") "test"
     = Found (Raise (fromhex_error 1))
  /\ WalletOps.get_address INF (PStr "00ff") "main" = Found (Raise AssertionError).
Proof.
  destruct (get_address_raises INF (PStr "00") "prod") as (H1 & _).
  destruct (get_address_raises INF (PBytes [x00]) "main") as (_ & H2 & _).
  destruct (get_address_raises INF (PStr "0") "test") as (_ & _ & H3 & _).
  destruct (get_address_raises INF (PStr "00ff") "main") as (_ & _ & _ & H4).
  split; [apply H1; discriminate|].
  split; [apply H2; [left; reflexivity|discriminate]|].
  split; [apply (H3 (or_intror eq_refl) "0"%string); reflexivity|].
  apply (H4 (or_introl eq_refl) "00ff"%string [x00; xff]);
    [reflexivity|reflexivity|cbn; lia].
Defined.

(** ** Transaction ids *)

(** X26: [transaction_id] raises what the final encoding (sig_index -1)
    raises, in particular whenever an input has no [script_sig]; when the
    encoding is produced, the id is a string of 64 lower-case hexadecimal
    digits that decodes to the reversed double SHA-256 of the encoding. *)
Theorem transaction_id_of_final_encoding (tx : Transaction)
    (ins : list TransactionInput) (outs : list TransactionOutput) :
  (forall e, TransactionOps.encode tx ins outs (-1) = Raise e ->
             transaction_id tx ins outs = Raise e)
  /\ (forall txin, In txin ins -> script_sig txin = None ->
        exists e, transaction_id tx ins outs = Raise e)
  /\ (forall b, TransactionOps.encode tx ins outs (-1) = Ok b ->
        exists id, transaction_id tx ins outs = Ok id
                   /\ String.length id = 64%nat
                   /\ fromhex id = Ok (rev (SHA256.digest (SHA256.digest b)))).
Proof.
  split; [|split].
  - intros e He. unfold transaction_id. rewrite He. reflexivity.
  - intros txin Hin Hnone.
    destruct (final_encoding_raises_without_script_sig tx ins outs txin Hnone Hin)
      as (e & He).
    exists e.
    unfold transaction_id. rewrite He. reflexivity.
  - intros b Hb. unfold transaction_id. rewrite Hb. cbn [bind].
    eexists. split; [reflexivity|]. split.
    + rewrite hex_length, length_rev, sha256_digest_length. reflexivity.
    + apply fromhex_hex.
Qed.

Lemma transaction_id_of_final_encoding_witness :
  exists id, transaction_id (mkTransaction 1 0) [] [] = Ok id
             /\ String.length id = 64%nat
             /\ fromhex id
                = Ok (rev (SHA256.digest
                             (SHA256.digest
                                [x01; x00; x00; x00; x00; x00;
                                 x00; x00; x00; x00]))).
Proof.
  destruct (transaction_id_of_final_encoding (mkTransaction 1 0) [] [])
    as (_ & _ & H).
  apply H. reflexivity.
Defined.

(** ** Remaining edge cases *)

Lemma enumerate_from_index_range {A : Type} (k : Z) (l : list A) (it : Z * A) :
  In it (TransactionOps.enumerate_from k l) ->
  k <= fst it < k + Z.of_nat (List.length l).
Proof.
  revert k. induction l as [|x l IH]; intros k Hin;
    cbn [TransactionOps.enumerate_from] in Hin; [contradiction|].
  cbn [List.length]. destruct Hin as [<-|Hin].
  - cbn [fst]. lia.
  - apply IH in Hin. lia.
Qed.

(** X27: a sig_index that names no input is not rejected: for sig_index
    below -1, and for sig_index at or beyond the number of inputs,
    [Transaction.encode] returns, with the trailer, the encoding in which
    every input carries the empty script (the byte 0). *)
Theorem sighash_index_out_of_range (tx : Transaction)
    (ins : list TransactionInput) (outs : list TransactionOutput)
    (sig_index : Z) :
  sig_index < -1 \/ Z.of_nat (List.length ins) <= sig_index ->
  TransactionOps.encode tx ins outs sig_index
  = serialize_with tx (fun _ _ => Ok [x00]) SIGHASH_ALL_trailer ins outs.
Proof.
  intros Hj.
  rewrite (encode_serialize_with tx ins outs sig_index (sighash_script sig_index)).
  - destruct (Z.eqb_spec sig_index (-1)) as [|_]; [lia|].
    unfold serialize_with.
    rewrite (mapM_ext
               (fun it => input_with_script (snd it)
                            (sighash_script sig_index (fst it) (snd it)))
               (fun it => input_with_script (snd it) (Ok [x00]))); [reflexivity|].
    intros it Hin. apply enumerate_from_index_range in Hin.
    unfold sighash_script.
    destruct (Z.eqb_spec (fst it) sig_index); [lia|reflexivity].
  - intros i txin. destruct (Z.eqb_spec sig_index (-1)); [lia|].
    apply encode_transaction_input_override.
Qed.

Lemma sighash_index_out_of_range_witness :
  let tx := mkTransaction 1 0 in
  let txin := TransactionOps.create_transaction_input
                tx [x01; x02] 0 (PBytes [xaa; xbb]) None 0xffffffff in
  TransactionOps.encode tx [txin] [] 1
  = serialize_with tx (fun _ _ => Ok [x00]) SIGHASH_ALL_trailer [txin] [].
Proof.
  intros tx txin.
  apply (sighash_index_out_of_range tx [txin] [] 1). right. cbn. lia.
Defined.

(** X28: double-and-add on an even scalar: for k >= 1, (2k) * P is
    k * (P + P), and raises what P + P raises when that cannot be
    computed. *)
Theorem rmul_even (k : Z) (P : Point) :
  1 <= k ->
  PointOps.rmul (2 * k) P = (P2 <- PointOps.add P P ;; PointOps.rmul k P2).
Proof.
  intros Hk. unfold PointOps.rmul.
  destruct (Z.ltb_spec (2 * k) 0); [lia|]. destruct (Z.ltb_spec k 0); [lia|].
  rewrite Z.log2_double by lia.
  pose proof (Z.log2_nonneg k).
  replace (Z.to_nat (Z.succ (Z.log2 k) + 1)) with (S (Z.to_nat (Z.log2 k + 1)))
    by lia.
  cbn [PointOps.rmul_loop].
  destruct (Z.eqb_spec (2 * k) 0); [lia|].
  assert (Hland : Z.land (2 * k) 1 = 0).
  { change 1 with (Z.ones 1). rewrite Z.land_ones by lia.
    change (2 ^ 1) with 2. rewrite Z.mul_comm. apply Z.mod_mul. lia. }
  rewrite Hland. cbn [Z.eqb bind].
  assert (Hshift : Z.shiftr (2 * k) 1 = k).
  { rewrite Z.shiftr_div_pow2 by lia. change (2 ^ 1) with 2.
    rewrite Z.mul_comm. apply Z.div_mul. lia. }
  rewrite Hshift. reflexivity.
Qed.

Lemma rmul_even_witness :
  PointOps.rmul (2 * 3) secp256k1_G
  = (P2 <- PointOps.add secp256k1_G secp256k1_G ;; PointOps.rmul 3 P2).
Proof. apply (rmul_even 3 secp256k1_G). lia. Defined.
